(** * SatDump: LEO scan-line projector and FengYun-3 MWTS-3 reader

    A shallow embedding of [projection::LEOScanProjector]
    (curvature tables, per-line projections, inverse query) and of
    [fengyun3::mwts3::MWTS3Reader], with the properties of the
    specification stated over them.

    Number model.  The curvature table builder is written once over an
    arithmetic interface ([Arith]).  The code runs it on IEEE 754
    binary32 values ([spec_float] of the standard library) with the
    [sinf], [cosf] and [atanf] of the C library, which are parameters
    here; the structural properties are proved for every instance of
    the interface, the properties of signs for the binary32 instance.
    A second instance reads every operation as the exact operation on
    real numbers: it is an idealisation of the code, used to describe
    the geometry the code approximates.  The per-line
    projection builder and the inverse query are written over binary32
    and binary64 values.  An access outside of a vector's storage and a
    signed overflow are undefined behaviour: the operation has no
    result. *)

From Stdlib Require Import ZArith Reals Lra Lia List Bool String.
From Stdlib Require Import Floats.SpecFloat.
From stdpp Require Import base list.
Import ListNotations.
Open Scope Z_scope.

(** ** Configuration *)

(** [tle::TLE]: the two element lines handed to [predict_parse_tle]. *)
Record TLE := { line1 : string; line2 : string }.

(** [projection::LEOScanProjectorSettings].  The header is not part of the
    sources at hand; fields and their order are those of the aggregate
    initialiser in the MWTS-2 decoder module.  [num] is the type the
    floating fields are read in; [image_width] is an [int]. *)
Record LEOScanProjectorSettings (num : Type) := {
  proj_offset : num;        (* Pixel offset *)
  correction_swath : num;   (* Correction swath *)
  correction_res : num;     (* Instrument res *)
  correction_height : num;  (* Orbit height *)
  instrument_swath : num;   (* Instrument swath *)
  proj_scale : num;         (* Scale *)
  az_offset : num;          (* Az offset *)
  tilt_offset : num;        (* Tilt *)
  time_offset : num;        (* Time offset *)
  image_width : Z;          (* Image width *)
  invert_scan : bool;       (* Invert scan *)
  sat_tle : TLE;            (* TLEs *)
  utc_timestamps : list num (* Timestamps *)
}.
Arguments proj_offset {num} _.
Arguments correction_swath {num} _.
Arguments correction_res {num} _.
Arguments correction_height {num} _.
Arguments instrument_swath {num} _.
Arguments proj_scale {num} _.
Arguments az_offset {num} _.
Arguments tilt_offset {num} _.
Arguments time_offset {num} _.
Arguments image_width {num} _.
Arguments invert_scan {num} _.
Arguments sat_tle {num} _.
Arguments utc_timestamps {num} _.

(** ** A vector written through [operator[]] after [reserve]

    [curvature_correction_factors_inv] is only ever [reserve]d and then
    written with [operator[]]: its [size()] stays 0 and the writes go to
    the reserved storage.  [rv_cells] is that storage (its length is the
    capacity).  An access outside of the storage is undefined behaviour
    and has no result. *)
Record ReservedVec := {
  rv_size : nat;
  rv_cells : list Z
}.

Definition rv_empty : ReservedVec :=
  {| rv_size := 0; rv_cells := [] |}.

(** [v.reserve(n)] for [0 <= n]: when the capacity is smaller than [n] new
    storage of [n] cells is allocated; the [size()] first cells are
    copied, the others hold whatever the allocation holds, [uninit]. *)
Definition rv_reserve (n : Z) (uninit : nat -> Z) (v : ReservedVec) : ReservedVec :=
  if Z.of_nat (length (rv_cells v)) <? n
  then {| rv_size := rv_size v;
          rv_cells := take (rv_size v) (rv_cells v)
                      ++ map uninit (seq (rv_size v) (Z.to_nat n - rv_size v)) |}
  else v.

(** [v[k] = x]; no result when [k] is outside the reserved storage (the
    write lands outside of the allocation, or through a null pointer
    when nothing was allocated). *)
Definition rv_store (k x : Z) (v : ReservedVec) : option ReservedVec :=
  if (0 <=? k) && (k <? Z.of_nat (length (rv_cells v)))
  then Some {| rv_size := rv_size v;
               rv_cells := <[Z.to_nat k := x]> (rv_cells v) |}
  else None.

(** [v[k]] read; [None] when [k] is outside the reserved storage. *)
Definition rv_load (k : Z) (v : ReservedVec) : option Z :=
  if 0 <=? k then rv_cells v !! Z.to_nat k else None.

(** ** Arithmetic interface of the curvature table builder *)

Class Arith (num : Type) := {
  of_int : Z -> num;              (* float(i) *)
  add : num -> num -> num;
  sub : num -> num -> num;
  mul : num -> num -> num;
  div : num -> num -> num;
  opp : num -> num;
  sinf : num -> num;
  cosf : num -> num;
  atanf : num -> num;
  roundf : num -> num;            (* round(): nearest, halves away from zero *)
  to_int : num -> Z               (* int(f): truncation toward zero *)
}.

Module Curvature.
Section Builder.
Context {num : Type} {arith : Arith num}.

Definition EARTH_RADIUS : num := of_int 6371.
Definition one : num := of_int 1.
Definition two : num := of_int 2.
(** The literal [0.5f]. *)
Definition half : num := div one two.

Record CurvatureTables := {
  corrected_width : Z;
  curvature_correction_factors_fwd : list num;
  curvature_correction_factors_inv : ReservedVec
}.

Variable settings : LEOScanProjectorSettings num.

Definition satellite_orbit_radius : num :=
  add EARTH_RADIUS (correction_height settings).

Definition corrected_width_of : Z :=
  to_int (roundf (div (correction_swath settings) (correction_res settings))).

Definition satellite_view_angle : num :=
  div (correction_swath settings) EARTH_RADIUS.

Definition edge_angle : num :=
  opp (atanf (div (mul EARTH_RADIUS (sinf (div satellite_view_angle two)))
                  (sub (mul (cosf (div satellite_view_angle two)) EARTH_RADIUS)
                       satellite_orbit_radius))).

(** Body of the loop, for the index [i]: the value [f]. *)
Definition angle_of (i : Z) : num :=
  mul (sub (div (of_int i) (of_int corrected_width_of)) half) satellite_view_angle.

Definition satellite_angle_of (i : Z) : num :=
  opp (atanf (div (mul EARTH_RADIUS (sinf (angle_of i)))
                  (sub (mul (cosf (angle_of i)) EARTH_RADIUS)
                       satellite_orbit_radius))).

Definition raw_pixel_of (i : Z) : num :=
  mul (of_int (image_width settings))
      (div (add (div (satellite_angle_of i) edge_angle) one) two).

Definition curvature_step (t : list num * ReservedVec) (i : Z)
  : option (list num * ReservedVec) :=
  let f := raw_pixel_of i in
  inv ← rv_store (to_int f) i (snd t);
  Some (fst t ++ [f], inv).

(** [n] turns of the [for] loop, for the indices [0 .. n-1]; no result
    once a turn has none. *)
Definition run (n : nat) (t0 : list num * ReservedVec)
  : option (list num * ReservedVec) :=
  fold_left (fun acc i => t ← acc; curvature_step t i)
            (map Z.of_nat (seq 0 n)) (Some t0).

(** The raw pixel, as an [int], the loop computes for the index [i]:
  the cell of the inverse table it writes. *)
Definition bin_of (i : Z) : Z := to_int (raw_pixel_of i).

(** The quotient handed to [atanf] on line 16, its numerator and its
    denominator. *)
Definition edge_numerator : num :=
  mul EARTH_RADIUS (sinf (div satellite_view_angle two)).

Definition edge_denominator : num :=
  sub (mul (cosf (div satellite_view_angle two)) EARTH_RADIUS) satellite_orbit_radius.

Definition edge_quotient : num := div edge_numerator edge_denominator.

(** [initCurvatureTable].  It has no tables to give, [None], when
  [reserve] throws [std::length_error] (a negative [image_width]) and
  when a turn of the loop writes outside of the reserved storage;
  [uninit] is what the reserved storage holds before it is written. *)
Definition initCurvatureTable (uninit : nat -> Z) : option CurvatureTables :=
  if image_width settings <? 0 then None
  else
  let inv0 := rv_reserve (image_width settings) uninit rv_empty in
  t ← run (Z.to_nat corrected_width_of) ([], inv0);
  Some {| corrected_width := corrected_width_of;
          curvature_correction_factors_fwd := fst t;
          curvature_correction_factors_inv := snd t |}.
End Builder.
End Curvature.

(** ** The exact reading of the arithmetic

    Every float operation taken as the exact operation on real numbers:
    no rounding, no NaN and no infinity.  This is not the arithmetic of
    the code. *)

Module RealModel.
(** [int(x)]: truncation toward zero. *)
Definition Rtrunc (x : R) : Z :=
  if Rle_dec 0 x then Zfloor x else - Zfloor (- x).

(** [round(x)]: nearest integer, halves away from zero. *)
Definition Rround (x : R) : R :=
  IZR (if Rle_dec 0 x then Zfloor (x + / 2) else - Zfloor (- x + / 2)).

#[export] Instance Real_arith : Arith R := {|
  of_int := IZR;
  add := Rplus;
  sub := Rminus;
  mul := Rmult;
  div := Rdiv;
  opp := Ropp;
  sinf := sin;
  cosf := cos;
  atanf := atan;
  roundf := Rround;
  to_int := Rtrunc
|}.
End RealModel.

(** ** IEEE 754 binary32 ([float]) and binary64 ([double]) *)

Module IEEE.
Definition INT_MIN : Z := - 2 ^ 31.
Definition INT_MAX : Z := 2 ^ 31 - 1.

(** Two's complement reading of an integer in 32 bits. *)
Definition wrap32 (z : Z) : Z := (z + 2 ^ 31) mod 2 ^ 32 - 2 ^ 31.

Definition b32_add := SFadd 24 128.
Definition b32_sub := SFsub 24 128.
Definition b32_mul := SFmul 24 128.
Definition b32_div := SFdiv 24 128.
Definition b64_add := SFadd 53 1024.
Definition b64_sub := SFsub 53 1024.
Definition b64_mul := SFmul 53 1024.
Definition b64_div := SFdiv 53 1024.

(** Conversion of a value to the format [prec], [emax], rounding to
    nearest even. *)
Definition SFconv (prec emax : Z) (x : spec_float) : spec_float :=
  match x with
  | S754_finite s m e => binary_round prec emax s m e
  | _ => x
  end.

Definition to_double : spec_float -> spec_float := SFconv 53 1024.
Definition to_float : spec_float -> spec_float := SFconv 24 128.

Definition b32_of_int (z : Z) : spec_float := binary_normalize 24 128 z 0 false.
Definition b64_of_int (z : Z) : spec_float := binary_normalize 53 1024 z 0 false.

(** Integer part, toward zero, of a finite value. *)
Definition SFtrunc (x : spec_float) : option Z :=
  match x with
  | S754_zero _ => Some 0
  | S754_finite s m e =>
      let mag := match e with
                 | Z0 => Zpos m
                 | Zpos _ => Z.shiftl (Zpos m) e
                 | Zneg _ => Z.shiftr (Zpos m) (- e)
                 end in
      Some (cond_Zopp s mag)
  | _ => None
  end.

(** [(int) x].  The conversion is undefined when the integer part does
    not fit an [int] (or for NaN); the value taken then is the one the
    x86 conversion instructions produce, [INT_MIN]. *)
Definition to_int32 (x : spec_float) : Z :=
  match SFtrunc x with
  | Some z => if (INT_MIN <=? z) && (z <=? INT_MAX) then z else INT_MIN
  | None => INT_MIN
  end.

(** [round(x)]: the nearest integer value, halves away from zero. *)
Definition SFround_away (x : spec_float) : spec_float :=
  match x with
  | S754_finite s m (Zneg p) =>
      let q := Z.shiftr (Zpos m + Z.shiftl 1 (Zpos p - 1)) (Zpos p) in
      match q with
      | Z0 => S754_zero s
      | _ => binary_normalize 53 1024 (cond_Zopp s q) 0 s
      end
  | _ => x
  end.

(** The builder's arithmetic on [float], given the three functions of
    the C library it calls. *)
Definition Float32_arith (c_sinf c_cosf c_atanf : spec_float -> spec_float)
  : Arith spec_float := {|
  of_int := b32_of_int;
  add := b32_add;
  sub := b32_sub;
  mul := b32_mul;
  div := b32_div;
  opp := SFopp;
  sinf := c_sinf;
  cosf := c_cosf;
  atanf := c_atanf;
  roundf := SFround_away;
  to_int := to_int32
|}.

(** Literals of the source. *)
Definition d_57_29578 : spec_float :=
  Eval vm_compute in b64_div (b64_of_int 5729578) (b64_of_int 100000).
Definition f_1e10 : spec_float := Eval vm_compute in b32_of_int (10 ^ 10).
End IEEE.

Import IEEE.

(** ** External collaborators of the projector *)

(** [predict_position], the fields the projector reads (radians and
    kilometres). *)
Record predict_position := {
  latitude : spec_float;
  longitude : spec_float;
  altitude : spec_float;
  footprint : spec_float
}.

(** The orbital library: element parsing, the conversion of a time stamp
    to a Julian date and the propagation to a Julian date. *)
Class PredictLib := {
  predict_orbital_elements_t : Type;
  predict_parse_tle : string -> string -> predict_orbital_elements_t;
  predict_to_julian_double : spec_float -> spec_float;
  predict_orbit : predict_orbital_elements_t -> spec_float -> predict_position
}.

(** The tilted perspective projection: [init(altitude, lon, lat, tilt,
    azi)], [forward(lon, lat, x, y)] and [inverse(x, y, lon, lat)] with
    its return code. *)
Class TPERSLib := {
  TPERSProjection : Type;
  tpers_init : spec_float -> spec_float -> spec_float -> spec_float -> spec_float
               -> TPERSProjection;
  tpers_forward : TPERSProjection -> spec_float -> spec_float -> spec_float * spec_float;
  tpers_inverse : TPERSProjection -> spec_float -> spec_float -> Z * (spec_float * spec_float)
}.

(** The functions of the C mathematical library. *)
Class LibM := {
  c_sinf : spec_float -> spec_float;
  c_cosf : spec_float -> spec_float;
  c_atanf : spec_float -> spec_float;
  c_atan : spec_float -> spec_float
}.

(** ** [projection::LEOScanProjector] *)

Module Projector.
Section Projector.
Context {predict : PredictLib} {tpers : TPERSLib} {libm : LibM}.

Record LEOScanProjector := {
  settings : LEOScanProjectorSettings spec_float;
  corrected_width : Z;
  curvature_correction_factors_fwd : list spec_float;
  curvature_correction_factors_inv : ReservedVec;
  poss : list predict_position;
  projs : list TPERSProjection;
  sat_footprints : list spec_float
}.

(** The lambda [toSatCoords]; [pj] is the projection it captured by
    reference, as it is when the lambda is called.  The [int]
    subtraction of the result is read in two's complement. *)
Definition toSatCoords (pj : TPERSProjection) (lat lon : spec_float)
    (map_height map_width : Z) : Z * Z :=
  let '(x, y) := tpers_forward pj (to_double lon) (to_double lat) in
  if SFltb (to_double f_1e10) (SFabs x) || SFltb (to_double f_1e10) (SFabs y)
  then (-1, -1)
  else
    let hscale := b32_of_int 4 in
    let vscale := b32_of_int 4 in
    let image_x :=
      to_int32 (b64_mul (b64_mul x (to_double hscale))
                        (b64_div (b64_of_int map_width) (b64_of_int 2))) in
    let image_y :=
      to_int32 (b64_mul (b64_mul y (to_double vscale))
                        (b64_div (b64_of_int map_height) (b64_of_int 2))) in
    let image_x :=
      to_int32 (b64_add (b64_of_int image_x)
                        (b64_div (b64_of_int map_width) (b64_of_int 2))) in
    let image_y :=
      to_int32 (b64_add (b64_of_int image_y)
                        (b64_div (b64_of_int map_height) (b64_of_int 2))) in
    (image_x, wrap32 (wrap32 (map_height - 1) - image_y)).

(** [std::pair<int, int>] converted to [std::pair<float, float>]. *)
Definition pair_to_float (p : Z * Z) : spec_float * spec_float :=
  (b32_of_int (fst p), b32_of_int (snd p)).

(** The quotient handed to [atan]:
    [(geo_cc1.second - geo_cc2.second) / (geo_cc1.first - geo_cc2.first)]. *)
Definition az_quotient (geo_cc1 geo_cc2 : spec_float * spec_float) : spec_float :=
  b32_div (b32_sub (snd geo_cc1) (snd geo_cc2)) (b32_sub (fst geo_cc1) (fst geo_cc2)).

(** [az = atan(...) * 57.29578], stored in a [float]. *)
Definition az_of (geo_cc1 geo_cc2 : spec_float * spec_float) : spec_float :=
  to_float (b64_mul (to_double (c_atan (az_quotient geo_cc1 geo_cc2))) d_57_29578).

(** The time stamp of a scan, [utc_timestamps[currentScan] + time_offset]. *)
Definition scan_timestamp (s : LEOScanProjectorSettings spec_float) (ts : spec_float)
  : spec_float :=
  b64_add ts (to_double (time_offset s)).

(** The two times around [currentTimestamp] the position is propagated
    at for the azimuth. *)
Definition az_times (currentTimestamp : spec_float) : spec_float * spec_float :=
  (b64_sub currentTimestamp (b64_of_int 200), b64_add currentTimestamp (b64_of_int 200)).

(** The projection "from the sat at the time", tilt 0 and azimuth 0. *)
Definition nadir_projection (satellite_orbit : predict_position) : TPERSProjection :=
  tpers_init (b64_mul (altitude satellite_orbit) (b64_of_int 1000))
             (b64_mul (longitude satellite_orbit) d_57_29578)
             (b64_mul (latitude satellite_orbit) d_57_29578)
             (b64_of_int 0) (b64_of_int 0).

(** A computation that calls [predict_orbit]: its result together with
    the Julian dates of the calls it made, in call order. *)
Definition Calls (A : Type) : Type := A * list spec_float.

Definition calls_ret {A : Type} (a : A) : Calls A := (a, []).

Definition calls_bind {A B : Type} (m : Calls A) (f : A -> Calls B) : Calls B :=
  (fst (f (fst m)), snd m ++ snd (f (fst m))).

(** [predict_orbit(satellite_object, &position, julian_date)]: the one
    way a position is obtained. *)
Definition orbit_at (satellite_object : predict_orbital_elements_t)
    (julian_date : spec_float) : Calls predict_position :=
  (predict_orbit satellite_object julian_date, [julian_date]).

(** The two tangent-plane points the azimuth is taken from, those of
    two positions seen from the projection [pj]. *)
Definition geo_cc_of (pj : TPERSProjection) (satellite_pos : predict_position)
  : spec_float * spec_float :=
  pair_to_float (toSatCoords pj (to_float (b64_mul (latitude satellite_pos) d_57_29578))
                                (to_float (b64_mul (longitude satellite_pos) d_57_29578))
                                200 200).

(** The inner block of the loop (lines 72 to 86), for the position
    [satellite_orbit] of the scan at [currentTimestamp]: two more calls
    of [predict_orbit], and the azimuth from their results. *)
Definition azimuth_block (satellite_object : predict_orbital_elements_t)
    (satellite_orbit : predict_position) (currentTimestamp : spec_float)
  : Calls spec_float :=
  let pj := nadir_projection satellite_orbit in
  calls_bind
    (orbit_at satellite_object (predict_to_julian_double (fst (az_times currentTimestamp))))
    (fun satellite_pos1 =>
  calls_bind
    (orbit_at satellite_object (predict_to_julian_double (snd (az_times currentTimestamp))))
    (fun satellite_pos2 =>
  calls_ret (az_of (geo_cc_of pj satellite_pos1) (geo_cc_of pj satellite_pos2)))).

(** Lines 67 to 86: the position of the scan at [currentTimestamp] and
    the azimuth of the inner block. *)
Definition scan_line (satellite_object : predict_orbital_elements_t)
    (currentTimestamp : spec_float) : Calls (predict_position * spec_float) :=
  calls_bind
    (orbit_at satellite_object (predict_to_julian_double currentTimestamp))
    (fun satellite_orbit =>
  calls_bind (azimuth_block satellite_object satellite_orbit currentTimestamp)
    (fun az => calls_ret (satellite_orbit, az))).

(** The azimuth computed in the inner block for the scan at
    [currentTimestamp]. *)
Definition scan_azimuth (satellite_object : predict_orbital_elements_t)
    (currentTimestamp : spec_float) : spec_float :=
  snd (fst (scan_line satellite_object currentTimestamp)).

(** The azimuth after the quarter turn and the fixed offset. *)
Definition offset_azimuth (s : LEOScanProjectorSettings spec_float) (az : spec_float)
  : spec_float :=
  let invertOffset := SFltb (b32_of_int 0) az in
  let az := b32_sub az (b32_of_int 90) in
  if invertOffset then b32_sub az (az_offset s) else b32_add az (az_offset s).

(** What one turn of the loop of [generateProjections] works on: the
    three vectors it appends to and the Julian dates of the calls of
    [predict_orbit] made so far, in call order. *)
Record GenState := {
  g_poss : list predict_position;
  g_projs : list TPERSProjection;
  g_footprints : list spec_float;
  g_calls : list spec_float
}.

Definition scan_step (s : LEOScanProjectorSettings spec_float)
    (satellite_object : predict_orbital_elements_t) (g : GenState) (ts : spec_float)
  : GenState :=
  let currentTimestamp := scan_timestamp s ts in
  let line := scan_line satellite_object currentTimestamp in
  let satellite_orbit := fst (fst line) in
  let az := snd (fst line) in
  let az := offset_azimuth s az in
  let pj :=
    tpers_init (b64_mul (altitude satellite_orbit) (b64_of_int 1000))
               (b64_mul (longitude satellite_orbit) d_57_29578)
               (b64_mul (latitude satellite_orbit) d_57_29578)
               (to_double (tilt_offset s)) (to_double az) in
  {| g_poss := g_poss g ++ [satellite_orbit];
     g_projs := g_projs g ++ [pj];
     g_footprints := g_footprints g ++ [footprint satellite_orbit];
     g_calls := g_calls g ++ snd line |}.

(** The scans the loop goes through:
    [currentScan < (int)settings.utc_timestamps.size()]. *)
Definition scans (s : LEOScanProjectorSettings spec_float) : list spec_float :=
  take (Z.to_nat (wrap32 (Z.of_nat (length (utc_timestamps s))))) (utc_timestamps s).

(** [generateProjections]: the projector after it, and the Julian dates
    the position oracle was called at. *)
Definition generateProjections (p : LEOScanProjector) : LEOScanProjector * list spec_float :=
  let s := settings p in
  let satellite_object := predict_parse_tle (line1 (sat_tle s)) (line2 (sat_tle s)) in
  let g := fold_left (scan_step s satellite_object) (scans s)
             {| g_poss := poss p; g_projs := projs p;
                g_footprints := sat_footprints p; g_calls := [] |} in
  ({| settings := s;
      corrected_width := corrected_width p;
      curvature_correction_factors_fwd := curvature_correction_factors_fwd p;
      curvature_correction_factors_inv := curvature_correction_factors_inv p;
      poss := g_poss g;
      projs := g_projs g;
      sat_footprints := g_footprints g |},
   g_calls g).


(** What a call of [inverse] does: it returns 1 from the bounds check, it
    forwards the return value of the projection's [inverse] with the
    longitude and latitude it wrote, or it reads outside of a vector
    (undefined behaviour): [projs] or [sat_footprints] outside of their
    elements, or the inverse curvature table outside of its storage. *)
Inductive inverse_outcome :=
| OutOfRange
| Forwarded (rc : Z) (lon lat : spec_float)
| LineReadPastEnd
| TableReadPastEnd.

(** [v[k]] on a vector of [size()] elements. *)
Definition vec_at {A : Type} (v : list A) (k : Z) : option A :=
  if 0 <=? k then v !! Z.to_nat k else None.

(** The coordinate handed to the projection's [inverse], from the pixel
    [corr_x], the reference [width] and the line's [footprint]. *)
Definition projection_x (s : LEOScanProjectorSettings spec_float)
    (corr_x width footprint : spec_float) : spec_float :=
  let proj_x :=
    if invert_scan s then b64_sub (b64_sub width (b64_of_int 1)) corr_x else corr_x in
  let proj_x := b64_sub proj_x (b64_div width (b64_of_int 2)) in
  let proj_x := b64_add proj_x (to_double (proj_offset s)) in
  let pjx :=
    b64_div proj_x (b64_mul (to_double (proj_scale s)) (b64_div width (b64_of_int 2))) in
  b64_mul pjx (b64_div (to_double (instrument_swath s)) footprint).

Definition inverse (p : LEOScanProjector) (img_x img_y : Z) (correct : bool)
  : inverse_outcome :=
  if (wrap32 (Z.of_nat (length (projs p))) <? img_y)
     || (image_width (settings p) <=? img_x)
  then OutOfRange
  else
    match vec_at (projs p) img_y, vec_at (sat_footprints p) img_y with
    | Some pj, Some footprint =>
        let corr_x :=
          if correct
          then option_map b64_of_int (rv_load img_x (curvature_correction_factors_inv p))
          else Some (b64_of_int img_x) in
        let width :=
          b64_of_int (if correct then corrected_width p else image_width (settings p)) in
        match corr_x with
        | Some corr_x =>
            let '(rc, (lon, lat)) :=
              tpers_inverse pj (projection_x (settings p) corr_x width footprint)
                            (b64_of_int 0) in
            Forwarded rc lon lat
        | None => TableReadPastEnd
        end
    | _, _ => LineReadPastEnd
    end.

(** The Julian dates [predict_orbit] is called at for the scan of time
    stamp [ts], in call order. *)
Definition scan_calls (s : LEOScanProjectorSettings spec_float) (ts : spec_float)
  : list spec_float :=
  let t := scan_timestamp s ts in
  [predict_to_julian_double t;
   predict_to_julian_double (b64_sub t (b64_of_int 200));
   predict_to_julian_double (b64_add t (b64_of_int 200))].

(** The projection saved for the scan of time stamp [ts], the steps on
    the azimuth written out. *)
Definition scan_projection (s : LEOScanProjectorSettings spec_float)
    (satellite_object : predict_orbital_elements_t) (ts : spec_float)
  : TPERSProjection :=
  let t := scan_timestamp s ts in
  let satellite_orbit := predict_orbit satellite_object (predict_to_julian_double t) in
  let raw_az := scan_azimuth satellite_object t in
  let shifted := b32_sub raw_az (b32_of_int 90) in
  tpers_init (b64_mul (altitude satellite_orbit) (b64_of_int 1000))
             (b64_mul (longitude satellite_orbit) d_57_29578)
             (b64_mul (latitude satellite_orbit) d_57_29578)
             (to_double (tilt_offset s))
             (to_double (if SFltb (b32_of_int 0) raw_az
                         then b32_sub shifted (az_offset s)
                         else b32_add shifted (az_offset s))).
End Projector.
End Projector.

(** ** [fengyun3::mwts3::MWTS3Reader] *)

(** [ccsds::parseCCSDSTimeFullRaw], called on the payload from its third
    byte on. *)
Class CCSDSTime := {
  parseCCSDSTimeFullRaw : list Byte.byte -> Z -> Z -> Z -> spec_float
}.

Module MWTS3.
Section Reader.
Context {ccsds_time : CCSDSTime}.

(** [ccsds::CCSDSPacket]; [work] reads its payload only. *)
Record CCSDSPacket := { payload : list Byte.byte }.

(** The array of 18 [std::vector<uint16_t>] is a list of 18 lists;
    [lines] is an [int], the time stamps are [double]s. *)
Record MWTS3Reader := {
  channels : list (list Z);
  lines : Z;
  timestamps : list spec_float
}.

(** Steps whose behaviour is undefined (a signed overflow, an access
    outside of a vector) have no result. *)
Definition int_add (a b : Z) : option Z :=
  if (INT_MIN <=? a + b) && (a + b <=? INT_MAX) then Some (a + b) else None.

Definition int_mul (a b : Z) : option Z :=
  if (INT_MIN <=? a * b) && (a * b <=? INT_MAX) then Some (a * b) else None.

(** [packet.payload[k]], promoted to [int]. *)
Definition payload_at (packet : CCSDSPacket) (k : Z) : option Z :=
  if 0 <=? k
  then option_map (fun b => Z.of_N (Byte.to_N b)) (payload packet !! Z.to_nat k)
  else None.

(** [channels[c][idx] = v], [v] cut to 16 bits. *)
Definition set_sample (chs : list (list Z)) (c idx v : Z) : option (list (list Z)) :=
  if 0 <=? c
  then match chs !! Z.to_nat c with
       | Some ch =>
           if (0 <=? idx) && (idx <? Z.of_nat (length ch))
           then Some (<[Z.to_nat c := <[Z.to_nat idx := v mod 2 ^ 16]> ch]> chs)
           else None
       | None => None
       end
  else None.

(** The constructor. *)
Definition MWTS3Reader_new : MWTS3Reader :=
  {| channels := map (fun ch => resize 98 0 ch) (replicate 18 []);
     lines := 0;
     timestamps := [] |}.

(** The statement of the inner loops:
    [channels[c][lines * 98 + first + i] =
       packet.payload[pos + (18 * i + c) * 2 + 0] << 8
       | packet.payload[pos + (18 * i + c) * 2 + 1]]
    ([first] is 0, and not written, for marker 1). *)
Definition copy_sample (packet : CCSDSPacket) (lines pos first i : Z)
    (chs : list (list Z)) (c : Z) : option (list (list Z)) :=
  hi ← payload_at packet (pos + (18 * i + c) * 2 + 0);
  lo ← payload_at packet (pos + (18 * i + c) * 2 + 1);
  base ← int_mul lines 98;
  base ← int_add base first;
  idx ← int_add base i;
  set_sample chs c idx (Z.lor (Z.shiftl hi 8) lo).

(** A [for] loop over [0 .. n-1] whose body may have no result. *)
Definition for_loop {S : Type} (n : nat) (body : S -> Z -> option S) (s : S) : option S :=
  foldl (fun acc k => s ← acc; body s k) (Some s) (map Z.of_nat (seq 0 n)).

(** [for (i < count) for (c < 18) ...] of one marker. *)
Definition copy_block (packet : CCSDSPacket) (lines pos count first : Z)
    (chs : list (list Z)) : option (list (list Z)) :=
  for_loop (Z.to_nat count)
    (fun chs i => for_loop 18 (copy_sample packet lines pos first i) chs) chs.

Definition marker_of (packet : CCSDSPacket) : option Z :=
  b ← payload_at packet 0; Some (Z.land (Z.shiftr b 4) 7).

(** [work]. *)
Definition work (r : MWTS3Reader) (packet : CCSDSPacket) : option MWTS3Reader :=
  if Z.of_nat (length (payload packet)) <? 1018 then Some r
  else
    marker ← marker_of packet;
    r ← (if marker =? 1 then
           chs ← copy_block packet (lines r) (224 + 144 * 2) 14 0 (channels r);
           let currentTime :=
             b64_add (parseCCSDSTimeFullRaw (drop 2 (payload packet)) 10957 10000 10000)
                     (b64_of_int (12 * 3600)) in
           lines' ← int_add (lines r) 1;
           Some {| channels := chs;
                   lines := lines';
                   timestamps := timestamps r ++ [currentTime] |}
         else if marker =? 2 then
           chs ← copy_block packet (lines r) 8 28 14 (channels r);
           Some {| channels := chs; lines := lines r; timestamps := timestamps r |}
         else if marker =? 3 then
           chs ← copy_block packet (lines r) 8 28 42 (channels r);
           Some {| channels := chs; lines := lines r; timestamps := timestamps r |}
         else if marker =? 4 then
           chs ← copy_block packet (lines r) 8 28 70 (channels r);
           Some {| channels := chs; lines := lines r; timestamps := timestamps r |}
         else Some r);
    n ← int_add (lines r) 1;
    n ← int_mul n 98;
    Some {| channels := map (fun ch => resize (Z.to_nat n) 0 ch) (channels r);
            lines := lines r;
            timestamps := timestamps r |}.

(** The invariant of the reader. *)
Definition reader_inv (r : MWTS3Reader) : Prop :=
  length (channels r) = 18%nat
  /\ Forall (fun ch => Z.of_nat (length ch) = (lines r + 1) * 98) (channels r)
  /\ lines r = Z.of_nat (length (timestamps r)).

(** The 18 channels all hold [n] samples. *)
Definition shape (n : nat) (chs : list (list Z)) : Prop :=
  length chs = 18%nat /\ Forall (fun ch => length ch = n) chs.

(** The sample [work] assembles from the payload bytes [k] and [k + 1],
    the first byte being the high one. *)
Definition be16 (packet : CCSDSPacket) (k : Z) : option Z :=
  hi ← payload_at packet (k + 0);
  lo ← payload_at packet (k + 1);
  Some (hi * 256 + lo).

(** The sample [k] of the channel [c] of an array of channels. *)
Definition cell (chs : list (list Z)) (c k : nat) : option Z :=
  ch ← chs !! c; ch !! k.

(** The arguments [getChannel] hands to the constructor of
    [image::Image<uint16_t>]: the buffer of the channel, a width of 98,
    a height of [lines] and one channel.  [None] for a channel outside
    of the array. *)
Record ImageArgs := {
  img_buffer : list Z;
  img_width : Z;
  img_height : Z;
  img_channels : Z
}.

Definition getChannel (r : MWTS3Reader) (channel : Z) : option ImageArgs :=
  if 0 <=? channel
  then ch ← channels r !! Z.to_nat channel;
       Some {| img_buffer := ch; img_width := 98;
               img_height := lines r; img_channels := 1 |}
  else None.

(** The samples an image of these dimensions is made of: the first
    [width * height * channels] of the buffer. *)
Definition image_samples (a : ImageArgs) : list Z :=
  take (Z.to_nat (img_width a * img_height a * img_channels a)) (img_buffer a).

(** The reader handed the packets of a list, one call of [work] after
    the other. *)
Definition work_all (r : MWTS3Reader) (packets : list CCSDSPacket) : option MWTS3Reader :=
  foldl (fun acc packet => r ← acc; work r packet) (Some r) packets.

(** The packets that start a line: at least 1018 payload bytes and
    marker 1. *)
Definition starts_line (packet : CCSDSPacket) : bool :=
  negb (Z.of_nat (length (payload packet)) <? 1018)
  && bool_decide (marker_of packet = Some 1).

(** The time stamp [work] records for a packet that starts a line. *)
Definition line_time (packet : CCSDSPacket) : spec_float :=
  b64_add (parseCCSDSTimeFullRaw (drop 2 (payload packet)) 10957 10000 10000)
          (b64_of_int (12 * 3600)).
End Reader.
End MWTS3.

(** ** Configurations and inputs the properties are instantiated at *)

Module Samples.
Definition no_tle : TLE := {| line1 := EmptyString; line2 := EmptyString |}.

(** A configuration over the reals; the fields the curvature tables do
    not read are those of the MWTS-2 decoder module. *)
Definition real_config (swath res height : R) (width : Z) : LEOScanProjectorSettings R :=
  {| proj_offset := 60%R;
     correction_swath := swath;
     correction_res := res;
     correction_height := height;
     instrument_swath := 2200%R;
     proj_scale := (242 / 100)%R;
     az_offset := 0%R;
     tilt_offset := 0%R;
     time_offset := 0%R;
     image_width := width;
     invert_scan := true;
     sat_tle := no_tle;
     utc_timestamps := [] |}.

(** Swath 1400 km in 4 corrected pixels, orbit height 827 km, one raw
    pixel. *)
Definition narrow : LEOScanProjectorSettings R := real_config 1400 350 827 1.

(** A swath of half the circumference of the earth (view angle pi) in 4
    corrected pixels, orbit height 827 km, 90 raw pixels. *)
Definition half_turn : LEOScanProjectorSettings R :=
  real_config (6371 * PI) (6371 * PI / 4) 827 90.

(** Storage that holds [-1] before it is written. *)
Definition minus_ones : nat -> Z := fun _ => -1.
End Samples.

(** Stand-ins for the external libraries, and a projector built with
    them; they serve to instantiate the properties only. *)
Module ProjectorSamples.
Import Projector Samples.

(** An orbit that does not move: every propagation gives the same
    position; time stamps are their own Julian dates. *)
Definition still_position : predict_position :=
  {| latitude := S754_zero false;
     longitude := S754_zero false;
     altitude := b64_of_int 827;
     footprint := b64_of_int 6000 |}.

Definition still_orbit : PredictLib :=
  {| predict_orbital_elements_t := unit;
     predict_parse_tle := fun _ _ => tt;
     predict_to_julian_double := fun t => t;
     predict_orbit := fun _ _ => still_position |}.

(** An orbit that drifts: latitude and longitude (radians) grow with
    the time; time stamps are their own Julian dates. *)
Definition drifting_orbit : PredictLib :=
  {| predict_orbital_elements_t := unit;
     predict_parse_tle := fun _ _ => tt;
     predict_to_julian_double := fun t => t;
     predict_orbit := fun _ julian_date =>
       {| latitude := b64_div julian_date (b64_of_int 100000);
          longitude := b64_div julian_date (b64_of_int 50000);
          altitude := b64_of_int 827;
          footprint := b64_of_int 6000 |} |}.

(** A projection that keeps its five parameters and maps by
    differences to its centre. *)
Record flat_projection := {
  fp_altitude : spec_float;
  fp_lon : spec_float;
  fp_lat : spec_float;
  fp_tilt : spec_float;
  fp_azi : spec_float
}.

Definition flat_tpers : TPERSLib :=
  {| TPERSProjection := flat_projection;
     tpers_init := Build_flat_projection;
     tpers_forward := fun pj lon lat => (b64_sub lon (fp_lon pj), b64_sub lat (fp_lat pj));
     tpers_inverse := fun pj x y => (0, (b64_add (fp_lon pj) x, b64_add (fp_lat pj) y)) |}.

(** Functions that return their argument, in particular NaN for NaN. *)
Definition plain_libm : LibM :=
  {| c_sinf := fun x => x; c_cosf := fun x => x;
     c_atanf := fun x => x; c_atan := fun x => x |}.

(** The settings of the MWTS-2 decoder module, for an image of [width]
    pixels and the given time stamps. *)
Definition mwts2_settings (width : Z) (timestamps : list spec_float)
  : LEOScanProjectorSettings spec_float :=
  {| proj_offset := b64_of_int 60;
     correction_swath := b32_of_int 1400;
     correction_res :=
       to_float (b64_div (b64_div (b64_of_int 174) (b64_of_int 10)) (b64_of_int 20));
     correction_height := b32_of_int 827;
     instrument_swath := b64_of_int 2200;
     proj_scale := b64_div (b64_of_int 242) (b64_of_int 100);
     az_offset := b32_of_int 0;
     tilt_offset := b64_of_int 0;
     time_offset := b64_of_int 0;
     image_width := width;
     invert_scan := true;
     sat_tle := no_tle;
     utc_timestamps := timestamps |}.

(** A projector before [generateProjections], for one scan at 1000 s. *)
Definition one_scan_start : LEOScanProjector (tpers := flat_tpers) :=
  {| settings := mwts2_settings 90 [b64_of_int 1000];
     corrected_width := 1609;
     curvature_correction_factors_fwd := [];
     curvature_correction_factors_inv :=
       {| rv_size := 0; rv_cells := map Z.of_nat (seq 0 90) |};
     poss := [];
     projs := [];
     sat_footprints := [] |}.

(** The same after [generateProjections]: one line. *)
Definition one_scan : LEOScanProjector (tpers := flat_tpers) :=
  Eval vm_compute in
  fst (generateProjections (predict := still_orbit) (libm := plain_libm) one_scan_start).

(** 200 milliseconds, in seconds. *)
Definition ms_200 : spec_float := b64_div (b64_of_int 200) (b64_of_int 1000).
End ProjectorSamples.

(** Settings of the curvature tables in single precision and values of
    the C library, to instantiate the properties and to evaluate the
    builder. *)
Module FloatSamples.
Import Samples.

(** Whether two values are the same value (NaN is NaN, and the two
    zeros differ). *)
Definition sf_same (x y : spec_float) : bool :=
  match x, y with
  | S754_zero a, S754_zero b => Bool.eqb a b
  | S754_infinity a, S754_infinity b => Bool.eqb a b
  | S754_nan, S754_nan => true
  | S754_finite a m e, S754_finite b n f => Bool.eqb a b && Pos.eqb m n && Z.eqb e f
  | _, _ => false
  end.

(** A function given by its values at the arguments of a table, and by
    another function elsewhere. *)
Definition tabulated (table : list (spec_float * spec_float))
    (elsewhere : spec_float -> spec_float) (x : spec_float) : spec_float :=
  match List.find (fun entry => sf_same (fst entry) x) table with
  | Some entry => snd entry
  | None => elsewhere x
  end.

(** The table of an odd function from its values at positive
    arguments. *)
Definition odd_table (table : list (spec_float * spec_float))
  : list (spec_float * spec_float) :=
  table ++ map (fun entry => (SFopp (fst entry), SFopp (snd entry))) table.

(** The table of an even function from its values at positive
    arguments. *)
Definition even_table (table : list (spec_float * spec_float))
  : list (spec_float * spec_float) :=
  table ++ map (fun entry => (SFopp (fst entry), snd entry)) table.

(** [pi / 2] rounded to single precision. *)
Definition f_half_pi : spec_float := S754_finite false 13176795 (-23).

(** [sinf], [cosf] and [atanf] rounded to nearest at the arguments the
    builder reaches for a swath of 1400 km in 4 corrected pixels from
    827 km; elsewhere the values for arguments close to zero,
    [sinf x = x], [cosf x = 1] and [atanf x = x], and
    [atanf (+-inf) = +-pi/2]. *)
Definition sample_sinf : spec_float -> spec_float :=
  tabulated
    (odd_table
       [(S754_finite false 14746886 (-27), S754_finite false 14717233 (-27));
        (S754_finite false 14746886 (-28), S754_finite false 14739469 (-28))])
    (fun x => x).

Definition sample_cosf : spec_float -> spec_float :=
  tabulated
    (even_table
       [(S754_finite false 14746886 (-27), S754_finite false 16676050 (-24));
        (S754_finite false 14746886 (-28), S754_finite false 16751905 (-24))])
    (fun _ => b32_of_int 1).

Definition sample_atanf : spec_float -> spec_float :=
  tabulated
    (odd_table
       [(S754_finite false 13543109 (-24), S754_finite false 11393999 (-24));
        (S754_finite false 14030575 (-25), S754_finite false 13289200 (-25))])
    (fun x => match x with
              | S754_infinity s => if s then SFopp f_half_pi else f_half_pi
              | _ => x
              end).


#[export] Instance sample_arith : Arith spec_float :=
  Float32_arith sample_sinf sample_cosf sample_atanf.

(** Settings in single precision; the fields the curvature tables do
    not read are those of the MWTS-2 decoder module. *)
Definition float_config (swath res height : spec_float) (width : Z)
    (timestamps : list spec_float) : LEOScanProjectorSettings spec_float :=
  {| proj_offset := b64_of_int 60;
     correction_swath := swath;
     correction_res := res;
     correction_height := height;
     instrument_swath := b64_of_int 2200;
     proj_scale := b64_div (b64_of_int 242) (b64_of_int 100);
     az_offset := b32_of_int 0;
     tilt_offset := b64_of_int 0;
     time_offset := b64_of_int 0;
     image_width := width;
     invert_scan := true;
     sat_tle := no_tle;
     utc_timestamps := timestamps |}.

(** Swath 1400 km in 4 corrected pixels, orbit height 827 km, [width]
    raw pixels. *)
Definition coarse (width : Z) : LEOScanProjectorSettings spec_float :=
  float_config (b32_of_int 1400) (b32_of_int 350) (b32_of_int 827) width [].

(** A swath of 2^-10 km in 4 corrected pixels from a height of 2^-13
    km, which the sum [6371 + height] absorbs; 90 raw pixels. *)
Definition absorbed : LEOScanProjectorSettings spec_float :=
  float_config (S754_finite false 8388608 (-33)) (S754_finite false 8388608 (-35))
               (S754_finite false 8388608 (-36)) 90 [].
End FloatSamples.

Module MWTS3Samples.
Import MWTS3.

(** A time parser that returns 0, and a first packet: marker 1 and 1018
    payload bytes. *)
Definition zero_time : CCSDSTime :=
  {| parseCCSDSTimeFullRaw := fun _ _ _ _ => S754_zero false |}.

Definition first_packet : CCSDSPacket :=
  {| payload := Byte.x10 :: repeat Byte.x00 1017 |}.

(** Packets of 1018 payload bytes with marker 2 and with marker 0, and a
    packet of one byte. *)
Definition pixels_packet : CCSDSPacket :=
  {| payload := Byte.x20 :: repeat Byte.x00 1017 |}.

Definition idle_packet : CCSDSPacket :=
  {| payload := repeat Byte.x00 1018 |}.

Definition short_packet : CCSDSPacket :=
  {| payload := [Byte.x10] |}.
End MWTS3Samples.

(** ** The statements about the tables over the reals *)

Module RealStatements.
Import Curvature RealModel.
Local Open Scope R_scope.

(** The view angle [a] on the ground seen from the orbit of radius [r]:
    the expression of lines 16 and 24. *)
Definition view_to_satellite (r a : R) : R :=
  - atan (6371 * sin a / (cos a * 6371 - r)).

(** The forward table never decreases. *)
Definition fwd_monotone (t : @CurvatureTables R) : Prop :=
  forall (i j : nat) (x y : R),
    (i <= j)%nat ->
    curvature_correction_factors_fwd t !! i = Some x ->
    curvature_correction_factors_fwd t !! j = Some y ->
    x <= y.

End RealStatements.

Module SpecStatements.
Import Curvature.

(** C6 as the specification states it: the inverse table read at the
    rounded forward entry of [i] gives [i] up to one corrected pixel. *)
Definition roundtrip_within_one {num : Type} {arith : Arith num}
    (t : @CurvatureTables num) : Prop :=
  forall (i : nat) (x : num),
    curvature_correction_factors_fwd t !! i = Some x ->
    exists k : Z,
      rv_load (to_int (roundf x)) (curvature_correction_factors_inv t) = Some k
      /\ Z.abs (k - Z.of_nat i) <= 1.

End SpecStatements.

(** * Properties *)

(** ** The curvature tables, for every arithmetic *)

Module CurvatureFacts.
Import Curvature.
Section Generic.
Context {num : Type} {arith : Arith num}.
Variable s : LEOScanProjectorSettings num.

Lemma run_S n t0 :
  run s (S n) t0 = (t ← run s n t0; curvature_step s t (Z.of_nat n)).
Proof.
  unfold run. rewrite seq_S, map_app, fold_left_app. reflexivity.
Qed.

Lemma rv_store_Some k x v v' :
  rv_store k x v = Some v' ->
  0 <= k < Z.of_nat (length (rv_cells v))
  /\ rv_size v' = rv_size v
  /\ rv_cells v' = <[Z.to_nat k := x]> (rv_cells v).
Proof.
  unfold rv_store.
  destruct ((0 <=? k) && (k <? Z.of_nat (length (rv_cells v)))) eqn:E; [|discriminate].
  intros [= <-]. apply andb_true_iff in E as [E1 E2].
  apply Z.leb_le in E1. apply Z.ltb_lt in E2. cbn. repeat split; lia.
Qed.

Lemma rv_store_inside k x v :
  0 <= k < Z.of_nat (length (rv_cells v)) ->
  rv_store k x v
  = Some {| rv_size := rv_size v; rv_cells := <[Z.to_nat k := x]> (rv_cells v) |}.
Proof.
  intros [H1 H2]. unfold rv_store.
  apply Z.leb_le in H1. apply Z.ltb_lt in H2. now rewrite H1, H2.
Qed.

(** What a turn of the loop that has a result did. *)
Lemma curvature_step_Some t i t' :
  curvature_step s t i = Some t' ->
  0 <= bin_of s i < Z.of_nat (length (rv_cells (snd t)))
  /\ fst t' = fst t ++ [raw_pixel_of s i]
  /\ rv_size (snd t') = rv_size (snd t)
  /\ rv_cells (snd t') = <[Z.to_nat (bin_of s i) := i]> (rv_cells (snd t)).
Proof.
  unfold curvature_step. fold (bin_of s i).
  destruct (rv_store (bin_of s i) i (snd t)) as [v|] eqn:E; [|discriminate].
  intros [= <-]. apply rv_store_Some in E as (Hk & Hs & Hc). cbn. auto.
Qed.

Lemma run_S_Some n t0 t' :
  run s (S n) t0 = Some t' ->
  exists t, run s n t0 = Some t /\ curvature_step s t (Z.of_nat n) = Some t'.
Proof.
  rewrite run_S. destruct (run s n t0) as [t|]; [|discriminate].
  intros H. now exists t.
Qed.

Lemma run_fwd n t0 t :
  run s n t0 = Some t ->
  fst t = fst t0 ++ map (raw_pixel_of s) (map Z.of_nat (seq 0 n)).
Proof.
  revert t. induction n as [|n IH]; intros t Ht.
  - injection Ht as <-. cbn. now rewrite app_nil_r.
  - apply run_S_Some in Ht as (t1 & H1 & Hstep).
    apply curvature_step_Some in Hstep as (_ & Hf & _).
    rewrite Hf, (IH t1 H1), seq_S, !map_app. cbn [map].
    now rewrite <- app_assoc.
Qed.


Lemma run_capacity n t0 t :
  run s n t0 = Some t ->
  length (rv_cells (snd t)) = length (rv_cells (snd t0)).
Proof.
  revert t. induction n as [|n IH]; intros t Ht.
  - now injection Ht as <-.
  - apply run_S_Some in Ht as (t1 & H1 & Hstep).
    apply curvature_step_Some in Hstep as (_ & _ & _ & Hc).
    now rewrite Hc, length_insert, (IH t1 H1).
Qed.

(** A loop that has a result wrote inside of the storage at every
    turn. *)
Lemma run_inside n t0 t :
  run s n t0 = Some t ->
  forall i, 0 <= i < Z.of_nat n ->
    0 <= bin_of s i < Z.of_nat (length (rv_cells (snd t0))).
Proof.
  revert t. induction n as [|n IH]; intros t Ht i Hi; [lia|].
  apply run_S_Some in Ht as (t1 & H1 & Hstep).
  apply curvature_step_Some in Hstep as (Hk & _).
  rewrite (run_capacity n t0 t1 H1) in Hk.
  destruct (Z.eq_dec i (Z.of_nat n)) as [->|]; [exact Hk | apply (IH t1 H1); lia].
Qed.

(** And a loop whose writes all fall inside of the storage has a
    result. *)
Lemma run_some n t0 :
  (forall i, 0 <= i < Z.of_nat n ->
     0 <= bin_of s i < Z.of_nat (length (rv_cells (snd t0)))) ->
  exists t, run s n t0 = Some t.
Proof.
  induction n as [|n IH]; intros Hin.
  - now exists t0.
  - destruct IH as [t Ht]; [intros i Hi; apply Hin; lia|].
    rewrite run_S, Ht. cbn. unfold curvature_step. fold (bin_of s (Z.of_nat n)).
    rewrite rv_store_inside; [now eexists|].
    rewrite (run_capacity n t0 t Ht). apply Hin. lia.
Qed.

(** After [n] turns a cell of the storage is as it was, no index having
    been binned there, or holds the last index binned there. *)
Lemma run_cells n t0 t (c : nat) :
  run s n t0 = Some t ->
  (c < length (rv_cells (snd t0)))%nat ->
  (rv_cells (snd t) !! c = rv_cells (snd t0) !! c
   /\ forall i, 0 <= i < Z.of_nat n -> bin_of s i <> Z.of_nat c)
  \/ (exists i, 0 <= i < Z.of_nat n /\ bin_of s i = Z.of_nat c
        /\ rv_cells (snd t) !! c = Some i
        /\ forall j, i < j < Z.of_nat n -> bin_of s j <> Z.of_nat c).
Proof.
  intros Ht Hc. revert t Ht. induction n as [|n IH]; intros t Ht.
  - injection Ht as <-. left. split; [reflexivity | intros; lia].
  - apply run_S_Some in Ht as (t1 & H1 & Hstep).
    apply curvature_step_Some in Hstep as (Hk & _ & _ & Hcells).
    rewrite (run_capacity n t0 t1 H1) in Hk. rewrite Hcells.
    destruct (decide (c = Z.to_nat (bin_of s (Z.of_nat n)))) as [->|Hne].
    + right. exists (Z.of_nat n).
      split; [lia|]. split; [lia|]. split.
      * apply list_lookup_insert_eq. rewrite (run_capacity n t0 t1 H1). lia.
      * intros; lia.
    + rewrite list_lookup_insert_ne by (intros Hk'; apply Hne; now symmetry).
      assert (Hb : bin_of s (Z.of_nat n) <> Z.of_nat c) by lia.
      destruct (IH t1 H1) as [[Heq Hno]|(i & Hi & Hbi & Hcell & Hlast)].
      * left. split; [exact Heq|]. intros i Hi.
        destruct (Z.eq_dec i (Z.of_nat n)) as [->|]; [exact Hb | apply Hno; lia].
      * right. exists i.
        split; [lia|]. split; [exact Hbi|]. split; [exact Hcell|].
        intros j Hj.
        destruct (Z.eq_dec j (Z.of_nat n)) as [->|]; [exact Hb | apply Hlast; lia].
Qed.

Lemma rv_reserve_empty (n : Z) (uninit : nat -> Z) :
  0 <= n ->
  rv_reserve n uninit rv_empty =
  {| rv_size := 0; rv_cells := map uninit (seq 0 (Z.to_nat n)) |}.
Proof.
  intros Hn. unfold rv_reserve, rv_empty. cbn [rv_cells rv_size length take].
  change (Z.of_nat 0) with 0.
  destruct (0 <? n) eqn:E.
  - now rewrite Nat.sub_0_r.
  - apply Z.ltb_ge in E. assert (n = 0) as -> by lia. reflexivity.
Qed.

Lemma reserved_lookup (n : Z) (uninit : nat -> Z) (c : nat) :
  (c < Z.to_nat n)%nat ->
  map uninit (seq 0 (Z.to_nat n)) !! c = Some (uninit c).
Proof.
  intros Hc. rewrite list_lookup_fmap, lookup_seq_lt by assumption. reflexivity.
Qed.

Lemma initial_capacity (uninit : nat -> Z) :
  0 <= image_width s ->
  length (rv_cells (rv_reserve (image_width s) uninit rv_empty))
  = Z.to_nat (image_width s).
Proof.
  intros Hw. rewrite rv_reserve_empty by assumption. cbn [rv_cells].
  now rewrite length_map, length_seq.
Qed.

(** What [initCurvatureTable] returned, when it returned tables. *)
Lemma initCurvatureTable_Some (uninit : nat -> Z) (t : CurvatureTables) :
  initCurvatureTable s uninit = Some t ->
  0 <= image_width s
  /\ exists r,
       run s (Z.to_nat (corrected_width_of s))
           ([], rv_reserve (image_width s) uninit rv_empty) = Some r
       /\ t = {| corrected_width := corrected_width_of s;
                 curvature_correction_factors_fwd := fst r;
                 curvature_correction_factors_inv := snd r |}.
Proof.
  unfold initCurvatureTable.
  destruct (image_width s <? 0) eqn:E; [discriminate|]. apply Z.ltb_ge in E.
  destruct (run s _ _) as [r|]; [|discriminate].
  intros [= <-]. split; [exact E|]. now exists r.
Qed.

(** [initCurvatureTable] returns tables when [reserve] does not throw
    and every write falls inside of the reserved storage. *)
Lemma initCurvatureTable_defined (uninit : nat -> Z) :
  0 <= image_width s ->
  (forall i, 0 <= i < corrected_width_of s -> 0 <= bin_of s i < image_width s) ->
  exists t, initCurvatureTable s uninit = Some t.
Proof.
  intros Hw Hin. unfold initCurvatureTable.
  destruct (image_width s <? 0) eqn:E; [apply Z.ltb_lt in E; lia|].
  destruct (run_some (Z.to_nat (corrected_width_of s))
              ([], rv_reserve (image_width s) uninit rv_empty)) as [r Hr].
  { intros i Hi. cbn [snd]. rewrite initial_capacity by assumption.
    pose proof (Hin i ltac:(lia)). lia. }
  rewrite Hr. now eexists.
Qed.

(** Tables are returned only when every write fell inside of the
    storage. *)
Lemma initCurvatureTable_inside (uninit : nat -> Z) (t : CurvatureTables) :
  initCurvatureTable s uninit = Some t ->
  forall i, 0 <= i < corrected_width_of s -> 0 <= bin_of s i < image_width s.
Proof.
  intros Hinit i Hi. apply initCurvatureTable_Some in Hinit as (Hw & r & Hr & _).
  pose proof (run_inside _ _ _ Hr i ltac:(lia)) as Hb. cbn [snd] in Hb.
  rewrite initial_capacity in Hb by assumption. lia.
Qed.

Lemma fwd_lookup n t0 t (i : nat) (x : num) :
  run s n t0 = Some t ->
  fst t0 = [] ->
  fst t !! i = Some x ->
  (i < n)%nat /\ x = raw_pixel_of s (Z.of_nat i).
Proof.
  intros Ht H0 Hx. rewrite (run_fwd n t0 t Ht), H0 in Hx. cbn [app] in Hx.
  rewrite !list_lookup_fmap in Hx.
  destruct (seq 0 n !! i) as [m|] eqn:E; [|discriminate].
  apply lookup_seq in E as [-> Hi]. cbn in Hx. split; [exact Hi | congruence].
Qed.

(** The forward table [initCurvatureTable] returns. *)
Lemma initCurvatureTable_fwd (uninit : nat -> Z) (t : CurvatureTables) :
  initCurvatureTable s uninit = Some t ->
  corrected_width t = corrected_width_of s
  /\ curvature_correction_factors_fwd t
     = map (raw_pixel_of s) (map Z.of_nat (seq 0 (Z.to_nat (corrected_width_of s)))).
Proof.
  intros Hinit. apply initCurvatureTable_Some in Hinit as (Hw & r & Hr & ->).
  cbn [corrected_width curvature_correction_factors_fwd]. split; [reflexivity|].
  now rewrite (run_fwd _ _ _ Hr).
Qed.

(** The storage of the inverse table [initCurvatureTable] returns: a
    cell holds the last corrected index whose raw pixel is the cell,
    or, when there is none, what the allocation held. *)
Lemma initCurvatureTable_cells (uninit : nat -> Z) (t : CurvatureTables) (c : nat) :
  initCurvatureTable s uninit = Some t ->
  (c < Z.to_nat (image_width s))%nat ->
  (rv_cells (curvature_correction_factors_inv t) !! c = Some (uninit c)
   /\ forall i, 0 <= i < corrected_width_of s -> bin_of s i <> Z.of_nat c)
  \/ (exists k, 0 <= k < corrected_width_of s /\ bin_of s k = Z.of_nat c
        /\ rv_cells (curvature_correction_factors_inv t) !! c = Some k
        /\ forall j, k < j < corrected_width_of s -> bin_of s j <> Z.of_nat c).
Proof.
  intros Hinit Hc. apply initCurvatureTable_Some in Hinit as (Hw & r & Hr & ->).
  cbn [curvature_correction_factors_inv].
  destruct (run_cells _ _ _ c Hr) as [[Heq Hno]|(k & Hk & Hbk & Hcell & Hlast)].
  - cbn [snd]. rewrite initial_capacity by assumption. exact Hc.
  - left. split.
    + rewrite Heq. cbn [snd]. rewrite rv_reserve_empty by assumption.
      cbn [rv_cells]. now apply reserved_lookup.
    + intros i Hi. apply Hno. lia.
  - right. exists k. split; [lia|]. split; [exact Hbk|]. split; [exact Hcell|].
    intros j Hj. apply Hlast. lia.
Qed.


(** C6, as amended.  For every index [i] of the forward table whose
    entry [x] truncates to a raw pixel inside the reserved storage, the
    inverse table read at [int(x)] yields the last corrected index [k]
    whose forward entry truncates to that same raw pixel: [k] is not
    below [i], and the forward entries at [i] and [k] lie in the same raw
    pixel bin.  Nothing bounds [k - i] by one. *)
Theorem inverse_at_forward_bin (uninit : nat -> Z) (t : CurvatureTables)
    (i : nat) (x : num) :
  initCurvatureTable s uninit = Some t ->
  curvature_correction_factors_fwd t !! i = Some x ->
  0 <= to_int x < image_width s ->
  exists (k : nat) (y : num),
    rv_load (to_int x) (curvature_correction_factors_inv t) = Some (Z.of_nat k)
    /\ (i <= k)%nat
    /\ curvature_correction_factors_fwd t !! k = Some y
    /\ to_int y = to_int x
    /\ (forall (j : nat) (z : num), (k < j)%nat ->
          curvature_correction_factors_fwd t !! j = Some z -> to_int z <> to_int x).
Proof.
  intros Hinit Hx Hbin.
  destruct (initCurvatureTable_fwd uninit t Hinit) as [_ Hfwd].
  assert (Hlook : forall (j : nat) (z : num),
             curvature_correction_factors_fwd t !! j = Some z ->
             (j < Z.to_nat (corrected_width_of s))%nat
             /\ z = raw_pixel_of s (Z.of_nat j)).
  { intros j z Hz. rewrite Hfwd, !list_lookup_fmap in Hz.
    destruct (seq 0 _ !! j) as [m|] eqn:E; [|discriminate].
    apply lookup_seq in E as [-> Hj]. cbn in Hz. split; [exact Hj | congruence]. }
  apply Hlook in Hx as [Hi ->].
  fold (bin_of s (Z.of_nat i)) in Hbin |- *.
  destruct (initCurvatureTable_cells uninit t (Z.to_nat (bin_of s (Z.of_nat i))) Hinit)
    as [[_ Hno]|(k & Hk & Hbk & Hcell & Hlast)].
  - lia.
  - exfalso. apply (Hno (Z.of_nat i)); lia.
  - rewrite Z2Nat.id in Hbk, Hlast by lia.
    assert (Hik : Z.of_nat i <= k).
    { destruct (Z_le_gt_dec (Z.of_nat i) k) as [|Hgt]; [assumption|].
      exfalso. apply (Hlast (Z.of_nat i)); [lia | reflexivity]. }
    exists (Z.to_nat k), (raw_pixel_of s k).
    rewrite Z2Nat.id by lia.
    split.
    { unfold rv_load. destruct (0 <=? bin_of s (Z.of_nat i)) eqn:E;
        [exact Hcell | apply Z.leb_gt in E; lia]. }
    split; [lia|]. split.
    { rewrite Hfwd, !list_lookup_fmap, lookup_seq_lt by lia. cbn.
      now rewrite Z2Nat.id by lia. }
    split; [exact Hbk|].
    intros j z Hj Hz. apply Hlook in Hz as [Hjn ->].
    apply Hlast. lia.
Qed.
End Generic.
End CurvatureFacts.

(** ** The curvature tables in exact arithmetic

    The geometry the builder approximates: what its formulas give when
    every operation is exact. *)

Module CurvatureReal.
Import Curvature RealModel RealStatements SpecStatements CurvatureFacts Samples.
Local Open Scope R_scope.

Lemma edge_angle_eq (s : LEOScanProjectorSettings R) :
  edge_angle s
  = view_to_satellite (6371 + correction_height s) (correction_swath s / 6371 / 2).
Proof. reflexivity. Qed.

Lemma angle_of_eq (s : LEOScanProjectorSettings R) (i : Z) :
  angle_of s i
  = (IZR i / IZR (corrected_width_of s) - 1 / 2) * (correction_swath s / 6371).
Proof. reflexivity. Qed.

Lemma satellite_angle_of_eq (s : LEOScanProjectorSettings R) (i : Z) :
  satellite_angle_of s i
  = view_to_satellite (6371 + correction_height s) (angle_of s i).
Proof. reflexivity. Qed.

Lemma raw_pixel_of_eq (s : LEOScanProjectorSettings R) (i : Z) :
  raw_pixel_of s i
  = IZR (image_width s) * ((satellite_angle_of s i / edge_angle s + 1) / 2).
Proof. reflexivity. Qed.

Lemma Rtrunc_IZR (z : Z) : Rtrunc (IZR z) = z.
Proof.
  unfold Rtrunc. destruct (Rle_dec 0 (IZR z)) as [_|_].
  - apply ZfloorZ.
  - rewrite ZfloorNZ. lia.
Qed.

Lemma Rtrunc_small (x : R) : 0 <= x < 1 -> Rtrunc x = 0%Z.
Proof.
  intros Hx. unfold Rtrunc. destruct (Rle_dec 0 x) as [_|Hn]; [|lra].
  apply Zfloor_eq. simpl. lra.
Qed.

Lemma Rround_IZR (z : Z) : Rround (IZR z) = IZR z.
Proof.
  unfold Rround. f_equal. destruct (Rle_dec 0 (IZR z)) as [_|_].
  - apply Zfloor_eq. lra.
  - enough (Zfloor (- IZR z + / 2) = (- z)%Z) by lia.
    apply Zfloor_eq. rewrite opp_IZR. lra.
Qed.

Lemma denominator_neg (r a : R) : 6371 < r -> cos a * 6371 - r < 0.
Proof. intros Hr. pose proof (COS_bound a) as [_ Hc]. nra. Qed.

Lemma view_to_satellite_opp (r a : R) :
  view_to_satellite r (- a) = - view_to_satellite r a.
Proof.
  unfold view_to_satellite. rewrite sin_neg, cos_neg.
  replace (6371 * - sin a / (cos a * 6371 - r))
    with (- (6371 * sin a / (cos a * 6371 - r))) by (unfold Rdiv; ring).
  now rewrite atan_opp.
Qed.

Lemma view_to_satellite_0 (r : R) : view_to_satellite r 0 = 0.
Proof.
  unfold view_to_satellite. rewrite sin_0. unfold Rdiv.
  rewrite Rmult_0_r, Rmult_0_l, atan_0. ring.
Qed.

Lemma view_to_satellite_pos (r a : R) :
  6371 < r -> 0 < a < PI -> 0 < view_to_satellite r a.
Proof.
  intros Hr [Ha1 Ha2]. unfold view_to_satellite.
  pose proof (sin_gt_0 a Ha1 Ha2) as Hs.
  pose proof (denominator_neg r a Hr) as Hd.
  assert (Hq : 6371 * sin a / (cos a * 6371 - r) < 0).
  { replace (6371 * sin a / (cos a * 6371 - r))
      with (- (6371 * sin a / (- (cos a * 6371 - r)))) by (field; lra).
    assert (0 < 6371 * sin a / (- (cos a * 6371 - r))); [|lra].
    apply Rdiv_lt_0_compat; lra. }
  apply atan_increasing in Hq. rewrite atan_0 in Hq. lra.
Qed.

Lemma view_to_satellite_lt_PI2 (r a : R) : view_to_satellite r a < PI / 2.
Proof.
  unfold view_to_satellite.
  pose proof (atan_bound (6371 * sin a / (cos a * 6371 - r))). lra.
Qed.

Lemma atan_le (x y : R) : x <= y -> atan x <= atan y.
Proof.
  intros [Hlt| ->]; [left; now apply atan_increasing | right; reflexivity].
Qed.

Lemma cos_ge_on_interval (theta m : R) :
  0 <= theta <= PI -> - theta <= m <= theta -> cos theta <= cos m.
Proof.
  intros Ht Hm. destruct (Rle_dec 0 m) as [Hp|Hn].
  - apply cos_decr_1; lra.
  - rewrite <- (cos_neg m). apply cos_decr_1; lra.
Qed.

(** Inside the horizon of the orbit the quotient under [atan] decreases
    with the view angle. *)
Lemma quotient_decreasing (r theta a b : R) :
  6371 < r -> 0 <= theta <= PI / 2 -> 6371 <= r * cos theta ->
  - theta <= a -> a <= b -> b <= theta ->
  6371 * sin b / (cos b * 6371 - r) <= 6371 * sin a / (cos a * 6371 - r).
Proof.
  intros Hr Ht Hh Ha Hab Hb.
  pose proof PI2_Rlt_PI as HPI.
  pose proof (denominator_neg r a Hr) as Hda.
  pose proof (denominator_neg r b Hr) as Hdb.
  set (S := sin ((b - a) / 2)).
  set (C := cos ((b - a) / 2)).
  set (M := cos ((b + a) / 2)).
  assert (HS : 0 <= S) by (apply sin_ge_0; lra).
  assert (HC : C <= 1) by apply COS_bound.
  assert (HM : cos theta <= M) by (apply cos_ge_on_interval; lra).
  assert (Hdiff : sin b - sin a = 2 * M * S) by apply form4.
  assert (Hsin : sin b * cos a - cos b * sin a = 2 * S * C).
  { rewrite <- sin_minus. replace (b - a) with (2 * ((b - a) / 2)) by field.
    apply sin_2a. }
  assert (Hnum : 6371 * sin b * (cos a * 6371 - r)
                 <= 6371 * sin a * (cos b * 6371 - r)).
  { assert (H1 : r * cos theta <= r * M) by (apply Rmult_le_compat_l; lra).
    assert (H2 : 6371 * C <= r * M) by lra.
    assert (H3 : 2 * S * (6371 * C) <= 2 * S * (r * M))
      by (apply Rmult_le_compat_l; lra).
    assert (H4 : 6371 * (sin b * cos a - cos b * sin a) <= r * (sin b - sin a)).
    { rewrite Hsin, Hdiff. lra. }
    lra. }
  apply Rmult_le_reg_r with ((- (cos a * 6371 - r)) * (- (cos b * 6371 - r))).
  { apply Rmult_lt_0_compat; lra. }
  replace (6371 * sin b / (cos b * 6371 - r)
           * (- (cos a * 6371 - r) * - (cos b * 6371 - r)))
    with (6371 * sin b * (cos a * 6371 - r)) by (field; lra).
  replace (6371 * sin a / (cos a * 6371 - r)
           * (- (cos a * 6371 - r) * - (cos b * 6371 - r)))
    with (6371 * sin a * (cos b * 6371 - r)) by (field; lra).
  exact Hnum.
Qed.

Lemma view_to_satellite_mono (r theta a b : R) :
  6371 < r -> 0 <= theta <= PI / 2 -> 6371 <= r * cos theta ->
  - theta <= a -> a <= b -> b <= theta ->
  view_to_satellite r a <= view_to_satellite r b.
Proof.
  intros. unfold view_to_satellite. apply Ropp_le_contravar, atan_le.
  now apply quotient_decreasing with theta.
Qed.

(** In exact arithmetic the quotient under the arc tangent is negative
    for every positive swath below pi times the earth radius and every
    positive height, and the edge angle, its negated arc tangent, is
    positive. *)
Lemma edge_angle_positive (s : LEOScanProjectorSettings R) :
  0 < correction_swath s < PI * 6371 -> 0 < correction_height s ->
  0 < edge_angle s.
Proof.
  intros [Hs1 Hs2] Hh. rewrite edge_angle_eq.
  pose proof PI_RGT_0. pose proof PI2_Rlt_PI.
  apply view_to_satellite_pos; [lra|].
  split.
  - apply Rdiv_lt_0_compat; [apply Rdiv_lt_0_compat|]; lra.
  - apply Rlt_trans with (PI / 2); [|assumption].
    apply Rmult_lt_reg_r with (6371 * 2); [lra|].
    replace (correction_swath s / 6371 / 2 * (6371 * 2)) with (correction_swath s)
      by field.
    lra.
Qed.


Lemma narrow_swath_in_range : 0 < correction_swath narrow < PI * 6371.
Proof. cbn. pose proof PI2_3_2. lra. Defined.

Lemma narrow_height_positive : 0 < correction_height narrow.
Proof. cbn. lra. Defined.



(** *** Monotonicity of the forward table *)

Lemma angle_of_bounds (s : LEOScanProjectorSettings R) (i : Z) :
  0 < correction_swath s -> (0 <= i < corrected_width_of s)%Z ->
  - (correction_swath s / 6371 / 2) <= angle_of s i <= correction_swath s / 6371 / 2.
Proof.
  intros Hs [Hi1 Hi2]. rewrite angle_of_eq.
  set (v := correction_swath s / 6371).
  assert (Hv : 0 < v) by (apply Rdiv_lt_0_compat; lra).
  assert (Hcw : 0 < IZR (corrected_width_of s)) by (apply IZR_lt; lia).
  assert (Hq0 : 0 <= IZR i / IZR (corrected_width_of s)).
  { apply Rmult_le_pos; [apply IZR_le; lia | left; now apply Rinv_0_lt_compat]. }
  assert (Hq1 : IZR i / IZR (corrected_width_of s) <= 1).
  { apply Rmult_le_reg_r with (IZR (corrected_width_of s)); [assumption|].
    replace (IZR i / IZR (corrected_width_of s) * IZR (corrected_width_of s))
      with (IZR i) by (field; lra).
    rewrite Rmult_1_l. apply IZR_le. lia. }
  split; nra.
Qed.

Lemma angle_of_mono (s : LEOScanProjectorSettings R) (i j : Z) :
  0 < correction_swath s -> (0 <= i <= j)%Z -> (j < corrected_width_of s)%Z ->
  angle_of s i <= angle_of s j.
Proof.
  intros Hs Hij Hj. rewrite !angle_of_eq.
  set (v := correction_swath s / 6371).
  assert (Hv : 0 < v) by (apply Rdiv_lt_0_compat; lra).
  assert (Hcw : 0 < IZR (corrected_width_of s)) by (apply IZR_lt; lia).
  apply Rmult_le_compat_r; [lra|].
  apply Rplus_le_compat_r, Rmult_le_compat_r.
  - left. now apply Rinv_0_lt_compat.
  - apply IZR_le. lia.
Qed.

Lemma raw_pixel_of_mono (s : LEOScanProjectorSettings R) (i j : Z) :
  (0 <= image_width s)%Z ->
  0 < correction_height s ->
  0 < correction_swath s <= PI * 6371 ->
  6371 <= (6371 + correction_height s) * cos (correction_swath s / 6371 / 2) ->
  (0 <= i <= j)%Z -> (j < corrected_width_of s)%Z ->
  raw_pixel_of s i <= raw_pixel_of s j.
Proof.
  intros Hw Hh [Hs1 Hs2] Hhorizon Hij Hj.
  pose proof PI_RGT_0 as HPI.
  set (theta := correction_swath s / 6371 / 2) in *.
  assert (Ht : 0 < theta <= PI / 2).
  { unfold theta. split.
    - apply Rdiv_lt_0_compat; [apply Rdiv_lt_0_compat|]; lra.
    - apply Rmult_le_reg_r with (6371 * 2); [lra|].
      replace (correction_swath s / 6371 / 2 * (6371 * 2)) with (correction_swath s)
        by field.
      lra. }
  assert (He : 0 < edge_angle s).
  { rewrite edge_angle_eq. fold theta.
    apply view_to_satellite_pos; [lra|]. pose proof PI2_Rlt_PI. lra. }
  assert (Hsat : satellite_angle_of s i <= satellite_angle_of s j).
  { rewrite !satellite_angle_of_eq.
    pose proof (angle_of_bounds s i Hs1 ltac:(lia)) as [Hlo _].
    pose proof (angle_of_bounds s j Hs1 ltac:(lia)) as [_ Hhi].
    fold theta in Hlo, Hhi.
    apply view_to_satellite_mono with theta;
      [lra | lra | lra | exact Hlo | now apply angle_of_mono | exact Hhi]. }
  rewrite !raw_pixel_of_eq.
  apply Rmult_le_compat_l; [apply IZR_le; lia|].
  apply Rmult_le_compat_r; [lra|].
  apply Rplus_le_compat_r, Rmult_le_compat_r; [|assumption].
  left. now apply Rinv_0_lt_compat.
Qed.


Lemma initCurvatureTable_fwd_lookup (s : LEOScanProjectorSettings R) uninit t
    (i : nat) (x : R) :
  initCurvatureTable s uninit = Some t ->
  curvature_correction_factors_fwd t !! i = Some x ->
  (Z.of_nat i < corrected_width_of s)%Z /\ x = raw_pixel_of s (Z.of_nat i).
Proof.
  intros Hinit Hx.
  destruct (initCurvatureTable_fwd s uninit t Hinit) as [_ Hfwd].
  rewrite Hfwd, !list_lookup_fmap in Hx.
  destruct (seq 0 _ !! i) as [m|] eqn:E; [|discriminate].
  apply lookup_seq in E as [-> Hi]. cbn [fmap option_fmap option_map] in Hx.
  injection Hx as <-. split; [lia | reflexivity].
Qed.

(** The exact reading of the forward table, inside of the horizon of the
    orbit: were every operation of the builder exact, the table would
    never decrease.  This is a statement about the geometry the code
    approximates in single precision, not about the values it
    computes. *)
Lemma forward_monotone_inside_horizon (s : LEOScanProjectorSettings R) uninit t :
  0 < correction_height s ->
  0 < correction_swath s <= PI * 6371 ->
  6371 <= (6371 + correction_height s) * cos (correction_swath s / 6371 / 2) ->
  initCurvatureTable s uninit = Some t ->
  fwd_monotone t.
Proof.
  intros Hh Hs Hhorizon Hinit i j x y Hij Hx Hy.
  destruct (initCurvatureTable_Some s uninit t Hinit) as [Hw _].
  apply (initCurvatureTable_fwd_lookup _ _ _ _ _ Hinit) in Hx as [Hi ->].
  apply (initCurvatureTable_fwd_lookup _ _ _ _ _ Hinit) in Hy as [Hj ->].
  apply raw_pixel_of_mono; try assumption; lia.
Qed.


Lemma raw_pixel_first (s : LEOScanProjectorSettings R) :
  edge_angle s <> 0 -> raw_pixel_of s 0 = 0.
Proof.
  intros He. rewrite raw_pixel_of_eq, satellite_angle_of_eq, angle_of_eq.
  replace ((0 / IZR (corrected_width_of s) - 1 / 2) * (correction_swath s / 6371))
    with (- (correction_swath s / 6371 / 2)) by (unfold Rdiv; ring).
  rewrite view_to_satellite_opp, <- edge_angle_eq. field. exact He.
Qed.

Lemma raw_pixel_middle (s : LEOScanProjectorSettings R) (i : Z) :
  (corrected_width_of s = 2 * i)%Z -> (i <> 0)%Z ->
  raw_pixel_of s i = IZR (image_width s) / 2.
Proof.
  intros Hcw Hi. rewrite raw_pixel_of_eq, satellite_angle_of_eq, angle_of_eq.
  rewrite Hcw, mult_IZR.
  assert (IZR i <> 0) by (apply not_0_IZR; assumption).
  replace ((IZR i / (2 * IZR i) - 1 / 2) * (correction_swath s / 6371)) with 0
    by (field; lra).
  rewrite view_to_satellite_0. unfold Rdiv. ring.
Qed.

(** Strictly inside the horizon the quotient under [atan] strictly
    decreases with the view angle. *)
Lemma quotient_strictly_decreasing (r theta a b : R) :
  6371 < r -> 0 <= theta <= PI / 2 -> 6371 <= r * cos theta ->
  - theta <= a -> a < b -> b <= theta ->
  6371 * sin b / (cos b * 6371 - r) < 6371 * sin a / (cos a * 6371 - r).
Proof.
  intros Hr Ht Hh Ha Hab Hb.
  pose proof PI2_Rlt_PI as HPI. pose proof PI_RGT_0 as HPI0.
  pose proof (denominator_neg r a Hr) as Hda.
  pose proof (denominator_neg r b Hr) as Hdb.
  set (S := sin ((b - a) / 2)).
  set (C := cos ((b - a) / 2)).
  set (M := cos ((b + a) / 2)).
  assert (HS : 0 < S) by (apply sin_gt_0; lra).
  assert (HC : C < 1).
  { unfold C. rewrite <- cos_0. apply cos_decreasing_1; lra. }
  assert (HM : cos theta <= M) by (apply cos_ge_on_interval; lra).
  assert (Hdiff : sin b - sin a = 2 * M * S) by apply form4.
  assert (Hsin : sin b * cos a - cos b * sin a = 2 * S * C).
  { rewrite <- sin_minus. replace (b - a) with (2 * ((b - a) / 2)) by field.
    apply sin_2a. }
  assert (Hnum : 6371 * sin b * (cos a * 6371 - r)
                 < 6371 * sin a * (cos b * 6371 - r)).
  { assert (H1 : r * cos theta <= r * M) by (apply Rmult_le_compat_l; lra).
    assert (H2 : 6371 * C < r * M) by lra.
    assert (H3 : 2 * S * (6371 * C) < 2 * S * (r * M))
      by (apply Rmult_lt_compat_l; lra).
    assert (H4 : 6371 * (sin b * cos a - cos b * sin a) < r * (sin b - sin a)).
    { rewrite Hsin, Hdiff. lra. }
    lra. }
  apply Rmult_lt_reg_r with ((- (cos a * 6371 - r)) * (- (cos b * 6371 - r))).
  { apply Rmult_lt_0_compat; lra. }
  replace (6371 * sin b / (cos b * 6371 - r)
           * (- (cos a * 6371 - r) * - (cos b * 6371 - r)))
    with (6371 * sin b * (cos a * 6371 - r)) by (field; lra).
  replace (6371 * sin a / (cos a * 6371 - r)
           * (- (cos a * 6371 - r) * - (cos b * 6371 - r)))
    with (6371 * sin a * (cos b * 6371 - r)) by (field; lra).
  exact Hnum.
Qed.

Lemma view_to_satellite_strict (r theta a b : R) :
  6371 < r -> 0 <= theta <= PI / 2 -> 6371 <= r * cos theta ->
  - theta <= a -> a < b -> b <= theta ->
  view_to_satellite r a < view_to_satellite r b.
Proof.
  intros. unfold view_to_satellite. apply Ropp_lt_contravar, atan_increasing.
  now apply quotient_strictly_decreasing with theta.
Qed.

Section InsideHorizon.
Variable s : LEOScanProjectorSettings R.
Hypothesis width_positive : (0 < image_width s)%Z.
Hypothesis height_positive : 0 < correction_height s.
Hypothesis swath_in_range : 0 < correction_swath s <= PI * 6371.
Hypothesis inside_horizon :
  6371 <= (6371 + correction_height s) * cos (correction_swath s / 6371 / 2).

Let theta := correction_swath s / 6371 / 2.

Lemma theta_in_range : 0 < theta <= PI / 2.
Proof.
  pose proof PI_RGT_0. unfold theta. split.
  - apply Rdiv_lt_0_compat; [apply Rdiv_lt_0_compat|]; lra.
  - apply Rmult_le_reg_r with (6371 * 2); [lra|].
    replace (correction_swath s / 6371 / 2 * (6371 * 2)) with (correction_swath s)
      by field.
    lra.
Qed.

Lemma edge_positive_inside : 0 < edge_angle s.
Proof.
  rewrite edge_angle_eq. fold theta. pose proof theta_in_range.
  pose proof PI2_Rlt_PI. apply view_to_satellite_pos; lra.
Qed.

Lemma angle_of_strict (i j : Z) :
  (0 <= i < j)%Z -> (j <= corrected_width_of s)%Z ->
  angle_of s i < angle_of s j.
Proof.
  intros Hij Hj. rewrite !angle_of_eq.
  assert (Hv : 0 < correction_swath s / 6371) by (apply Rdiv_lt_0_compat; lra).
  assert (Hcw : 0 < IZR (corrected_width_of s)) by (apply IZR_lt; lia).
  apply Rmult_lt_compat_r; [assumption|].
  apply Rplus_lt_compat_r, Rmult_lt_compat_r.
  - now apply Rinv_0_lt_compat.
  - apply IZR_lt. lia.
Qed.

Lemma angle_of_last : angle_of s (corrected_width_of s) = theta
                      \/ (corrected_width_of s = 0)%Z.
Proof.
  destruct (Z.eq_dec (corrected_width_of s) 0%Z) as [H0|Hn]; [now right|left].
  rewrite angle_of_eq. unfold theta.
  assert (IZR (corrected_width_of s) <> 0) by now apply not_0_IZR.
  field. assumption.
Qed.

Lemma raw_pixel_strict (i j : Z) :
  (0 <= i < j)%Z -> (j <= corrected_width_of s)%Z ->
  raw_pixel_of s i < raw_pixel_of s j.
Proof.
  intros Hij Hj. pose proof theta_in_range as Ht. pose proof edge_positive_inside as He.
  assert (Hsat : satellite_angle_of s i < satellite_angle_of s j).
  { rewrite !satellite_angle_of_eq.
    pose proof (angle_of_bounds s i ltac:(lra) ltac:(lia)) as [Hlo _].
    assert (Hhi : angle_of s j <= theta).
    { destruct (Z.eq_dec j (corrected_width_of s)) as [->|Hne].
      - destruct angle_of_last as [->|H0]; [lra | lia].
      - apply (angle_of_bounds s j); [lra | lia]. }
    fold theta in Hlo.
    apply view_to_satellite_strict with theta;
      [lra | lra | exact inside_horizon | exact Hlo | now apply angle_of_strict | exact Hhi]. }
  rewrite !raw_pixel_of_eq.
  apply Rmult_lt_compat_l; [apply IZR_lt; lia|].
  apply Rmult_lt_compat_r; [lra|].
  apply Rplus_lt_compat_r, Rmult_lt_compat_r; [|assumption].
  now apply Rinv_0_lt_compat.
Qed.

Lemma raw_pixel_last :
  (corrected_width_of s <> 0)%Z ->
  raw_pixel_of s (corrected_width_of s) = IZR (image_width s).
Proof.
  intros Hcw. pose proof edge_positive_inside as He.
  rewrite raw_pixel_of_eq, satellite_angle_of_eq.
  destruct angle_of_last as [->|H0]; [|contradiction].
  unfold theta. rewrite <- edge_angle_eq. field. lra.
Qed.

Lemma raw_pixel_in_image (i : Z) :
  (0 <= i < corrected_width_of s)%Z ->
  0 <= raw_pixel_of s i < IZR (image_width s).
Proof.
  intros Hi. pose proof edge_positive_inside as He. split.
  - destruct (Z.eq_dec i 0%Z) as [->|Hne].
    + rewrite raw_pixel_first by lra. lra.
    + rewrite <- (raw_pixel_first s) by lra. left. apply raw_pixel_strict; lia.
  - rewrite <- raw_pixel_last by lia. apply raw_pixel_strict; lia.
Qed.

Lemma bin_in_image (i : Z) :
  (0 <= i < corrected_width_of s)%Z ->
  (0 <= to_int (raw_pixel_of s i) < image_width s)%Z.
Proof.
  intros Hi. destruct (raw_pixel_in_image i Hi) as [H0 Hw].
  change (to_int (raw_pixel_of s i)) with (Rtrunc (raw_pixel_of s i)).
  unfold Rtrunc. destruct (Rle_dec 0 (raw_pixel_of s i)) as [_|Hn]; [|contradiction].
  pose proof (Zfloor_bound (raw_pixel_of s i)) as [Hlo Hhi].
  split.
  - now apply (Zfloor_lub 0).
  - apply lt_IZR. lra.
Qed.
End InsideHorizon.

Lemma cos_above_parabola (x : R) : -2 <= x <= 2 -> 1 - x * x / 2 <= cos x.
Proof.
  intros [H1 H2]. pose proof (pre_cos_bound x 0 H1 H2) as [Hlb _].
  unfold cos_approx, cos_term in Hlb. cbn in Hlb.
  lra.
Qed.

Lemma narrow_inside_horizon :
  6371 <= (6371 + correction_height narrow)
          * cos (correction_swath narrow / 6371 / 2).
Proof.
  cbn. pose proof (cos_above_parabola (1400 / 6371 / 2) ltac:(lra)) as Hc.
  assert (Hb : 6371 / 7198 <= 1 - 1400 / 6371 / 2 * (1400 / 6371 / 2) / 2) by lra.
  apply Rle_trans with ((6371 + 827) * (6371 / 7198)); [lra|].
  apply Rmult_le_compat_l; lra.
Defined.

Lemma narrow_swath_below_half_turn : 0 < correction_swath narrow <= PI * 6371.
Proof. cbn. pose proof PI2_3_2. lra. Defined.

Lemma narrow_width_positive : (0 < image_width narrow)%Z.
Proof. cbn. lia. Defined.

Lemma narrow_bins (i : Z) :
  (0 <= i < corrected_width_of narrow)%Z ->
  (0 <= to_int (raw_pixel_of narrow i) < image_width narrow)%Z.
Proof.
  apply (bin_in_image narrow narrow_width_positive narrow_height_positive
           narrow_swath_below_half_turn narrow_inside_horizon).
Defined.

Lemma narrow_builds :
  { t | initCurvatureTable narrow minus_ones = Some t }.
Proof.
  destruct (initCurvatureTable narrow minus_ones) as [t|] eqn:E.
  - now exists t.
  - exfalso.
    destruct (initCurvatureTable_defined narrow minus_ones) as [t Ht].
    + cbn. lia.
    + exact narrow_bins.
    + congruence.
Defined.


(** *** The sample configurations *)



Lemma narrow_corrected_width : corrected_width_of narrow = 4%Z.
Proof.
  unfold corrected_width_of. cbn.
  replace (1400 / 350) with 4 by lra.
  now rewrite Rround_IZR, Rtrunc_IZR.
Qed.

Lemma half_turn_corrected_width : corrected_width_of half_turn = 4%Z.
Proof.
  unfold corrected_width_of. cbn.
  replace (6371 * PI / (6371 * PI / 4)) with 4 by (field; apply PI_neq0).
  now rewrite Rround_IZR, Rtrunc_IZR.
Qed.

Lemma narrow_edge_nonzero : edge_angle narrow <> 0.
Proof.
  pose proof (edge_angle_positive narrow narrow_swath_in_range narrow_height_positive).
  lra.
Qed.

Lemma sine_of_quarter_turn : cos (PI / 4) = sin (PI / 4) /\ 2 / 3 < sin (PI / 4).
Proof.
  assert (Hc : cos (PI / 4) = sin (PI / 4)) by now rewrite cos_PI4, sin_PI4.
  split; [exact Hc|].
  pose proof PI_RGT_0.
  assert (Hp : 0 < sin (PI / 4)) by (apply sin_gt_0; lra).
  pose proof (sin2_cos2 (PI / 4)) as Hsq. rewrite Hc in Hsq. unfold Rsqr in Hsq.
  nra.
Qed.

Lemma half_turn_edge_angle :
  edge_angle half_turn = view_to_satellite (6371 + 827) (PI / 2).
Proof.
  rewrite edge_angle_eq. cbn. f_equal. field.
Qed.

Lemma half_turn_angle_1 : angle_of half_turn 1 = - (PI / 4).
Proof.
  rewrite angle_of_eq, half_turn_corrected_width. cbn. field.
Qed.

(** Past the horizon the satellite angle comes back: the view angle pi/4
    is seen under a larger angle than the view angle pi/2. *)
Lemma beyond_horizon :
  view_to_satellite (6371 + 827) (PI / 2) < view_to_satellite (6371 + 827) (PI / 4).
Proof.
  destruct sine_of_quarter_turn as [Hc Hu].
  unfold view_to_satellite. rewrite sin_PI2, cos_PI2, Hc.
  pose proof (SIN_bound (PI / 4)) as [_ Hu1].
  set (u := sin (PI / 4)) in *.
  apply Ropp_lt_contravar, atan_increasing.
  assert (Hd : u * 6371 - (6371 + 827) < 0) by lra.
  apply Rmult_lt_reg_r with (- (u * 6371 - (6371 + 827)) * 7198); [nra|].
  replace (6371 * u / (u * 6371 - (6371 + 827))
           * (- (u * 6371 - (6371 + 827)) * 7198))
    with (- (6371 * u * 7198)) by (field; lra).
  replace (6371 * 1 / (0 * 6371 - (6371 + 827))
           * (- (u * 6371 - (6371 + 827)) * 7198))
    with (6371 * (u * 6371 - (6371 + 827))) by (field; lra).
  lra.
Qed.

Lemma half_turn_edge_in_range : 0 < edge_angle half_turn < PI / 2.
Proof.
  rewrite half_turn_edge_angle. pose proof PI_RGT_0. split.
  - apply view_to_satellite_pos; lra.
  - apply view_to_satellite_lt_PI2.
Qed.

(** In exact arithmetic, for a swath of half the circumference of the
    earth seen from 827 km (edge angle 41.5 degrees), the raw position
    of the corrected index 1 lies below that of the index 0. *)
Lemma half_turn_pixel_1 : raw_pixel_of half_turn 1 < raw_pixel_of half_turn 0.
Proof.
  destruct half_turn_edge_in_range as [He _].
  rewrite raw_pixel_first by lra.
  rewrite raw_pixel_of_eq, satellite_angle_of_eq, half_turn_angle_1.
  rewrite view_to_satellite_opp.
  pose proof beyond_horizon as Hb. rewrite <- half_turn_edge_angle in Hb.
  change (correction_height half_turn) with 827.
  set (A := view_to_satellite (6371 + 827) (PI / 4)) in *.
  set (E := edge_angle half_turn) in *.
  assert (Hq : 1 < A / E).
  { apply Rmult_lt_reg_r with E; [assumption|].
    replace (A / E * E) with A by (field; lra). lra. }
  replace (- A / E) with (- (A / E)) by (field; lra).
  change (IZR (image_width half_turn)) with 90. lra.
Qed.

End CurvatureReal.

(** ** The per-line projections *)

(** ** The curvature tables in single precision *)

Module CurvatureFloat.
Import Curvature CurvatureFacts.

(** *** Signs of rounded results *)









(** *** The edge angle *)

Section EdgeAngle.
Variables c_sinf c_cosf c_atanf : spec_float -> spec_float.
Variable s : LEOScanProjectorSettings spec_float.

#[local] Instance builder_arith : Arith spec_float := Float32_arith c_sinf c_cosf c_atanf.




End EdgeAngle.

(** *** Instances *)

Import Samples FloatSamples SpecStatements.




(** A positive height and swath alone do not make the denominator
    negative: a height of 2^-13 km is absorbed by the sum
    [6371 + height], the denominator is zero, the quotient the positive
    infinity and the edge angle [- pi / 2]. *)
Lemma edge_angle_of_absorbed_height :
  SFltb (b32_of_int 0) (correction_swath absorbed) = true
  /\ SFltb (b32_of_int 0) (correction_height absorbed) = true
  /\ satellite_orbit_radius absorbed = b32_of_int 6371
  /\ edge_denominator absorbed = S754_zero false
  /\ edge_quotient absorbed = S754_infinity false
  /\ edge_angle absorbed = SFopp f_half_pi.
Proof. vm_compute. repeat split. Qed.

(** There the forward positions the loop computes are 0, 0, NaN and 90,
    the third and the fourth write fall outside of the storage of 90
    cells, and the builder has no tables to give. *)
Lemma tables_of_absorbed_height :
  map (raw_pixel_of absorbed) [0; 1; 2; 3]
  = [S754_zero false; S754_zero false; S754_nan; b32_of_int 90]
  /\ map (bin_of absorbed) [0; 1; 2; 3] = [0; 0; INT_MIN; 90]
  /\ initCurvatureTable absorbed minus_ones = None.
Proof. vm_compute. repeat split. Qed.

(** *** The tables of a swath of 1400 km in 4 corrected pixels *)





(** *** One raw pixel for 4 corrected pixels *)

Lemma inverse_at_forward_bin_witness :
  exists t,
    initCurvatureTable (coarse 1) minus_ones = Some t
    /\ exists (k : nat) (y : spec_float),
         rv_load (to_int (S754_finite false 13986606 (-26)))
                 (curvature_correction_factors_inv t)
         = Some (Z.of_nat k)
         /\ (1 <= k)%nat
         /\ curvature_correction_factors_fwd t !! k = Some y
         /\ to_int y = to_int (S754_finite false 13986606 (-26)).
Proof.
  destruct (initCurvatureTable (coarse 1) minus_ones) as [t|] eqn:Ht;
    [|vm_compute in Ht; discriminate Ht].
  exists t. split; [reflexivity|].
  destruct (inverse_at_forward_bin (coarse 1) minus_ones t 1%nat
              (S754_finite false 13986606 (-26)) Ht)
    as (k & y & H1 & H2 & H3 & H4 & _).
  - vm_compute in Ht. injection Ht as <-. reflexivity.
  - vm_compute. split; congruence.
  - exists k, y. repeat split; assumption.
Defined.

(** C6 as stated fails: with 4 corrected pixels over 1 raw pixel the
    four raw positions truncate to the raw pixel 0, whose cell is left
    with the last index, 3; the forward entry of the index 0 is 0, and
    the inverse table read at its rounding holds 3, not an index within
    one corrected pixel of 0. *)
Lemma roundtrip_not_within_one :
  exists t, initCurvatureTable (coarse 1) minus_ones = Some t
            /\ rv_cells (curvature_correction_factors_inv t) = [3]
            /\ ~ roundtrip_within_one t.
Proof.
  eexists. split; [vm_compute; reflexivity|]. split; [reflexivity|].
  intros Hrt. destruct (Hrt 0%nat (S754_zero false) eq_refl) as (k & Hk & Habs).
  vm_compute in Hk. injection Hk as <-. vm_compute in Habs. now apply Habs.
Qed.
End CurvatureFloat.

Module ProjectorFacts.
Import Projector.
Section Facts.
Context {predict : PredictLib} {tpers : TPERSLib} {libm : LibM}.

Lemma fold_scan_step s obj (l : list spec_float) (g : GenState) :
  let g' := fold_left (scan_step s obj) l g in
  g_projs g' = g_projs g ++ map (scan_projection s obj) l
  /\ g_calls g' = g_calls g ++ flat_map (scan_calls s) l
  /\ g_footprints g'
     = g_footprints g
       ++ map (fun ts => footprint (predict_orbit obj
                 (predict_to_julian_double (scan_timestamp s ts)))) l
  /\ g_poss g'
     = g_poss g
       ++ map (fun ts => predict_orbit obj
                 (predict_to_julian_double (scan_timestamp s ts))) l.
Proof.
  revert g. induction l as [|ts l IH]; intros g; cbn zeta.
  - cbn. now rewrite !app_nil_r.
  - cbn [fold_left]. destruct (IH (scan_step s obj g ts)) as (Hp & Hc & Hf & Hs).
    cbn zeta in Hp, Hc, Hf, Hs. rewrite Hp, Hc, Hf, Hs.
    cbn [scan_step g_projs g_calls g_footprints g_poss map flat_map].
    rewrite <- !app_assoc. repeat split.
Qed.

(** C2, as amended.  For every scan line with time stamp [t] (after the
    configured time offset), the position oracle is propagated, after
    the call at [t] itself, at exactly [t - 200] and [t + 200], where 200
    is in the unit of the time stamps, seconds: the calls
    [generateProjections] makes are these three per line, in this order,
    and the azimuth of the line is derived from the positions returned
    for [t - 200] and [t + 200], both seen from the position at [t].
    The finite-difference pair is taken 200 seconds, not 200
    milliseconds, either side of the line. *)
Theorem oracle_calls_of_generateProjections (p : LEOScanProjector) :
  let s := settings p in
  let satellite_object := predict_parse_tle (line1 (sat_tle s)) (line2 (sat_tle s)) in
  snd (generateProjections p)
  = flat_map (fun ts =>
                let t := scan_timestamp s ts in
                [predict_to_julian_double t;
                 predict_to_julian_double (b64_sub t (b64_of_int 200));
                 predict_to_julian_double (b64_add t (b64_of_int 200))])
             (scans s)
  /\ forall ts,
       let t := scan_timestamp s ts in
       let pj :=
         nadir_projection (predict_orbit satellite_object (predict_to_julian_double t)) in
       let satellite_pos1 :=
         predict_orbit satellite_object
           (predict_to_julian_double (b64_sub t (b64_of_int 200))) in
       let satellite_pos2 :=
         predict_orbit satellite_object
           (predict_to_julian_double (b64_add t (b64_of_int 200))) in
       snd (scan_line satellite_object t)
       = [predict_to_julian_double t;
          predict_to_julian_double (b64_sub t (b64_of_int 200));
          predict_to_julian_double (b64_add t (b64_of_int 200))]
       /\ scan_azimuth satellite_object t
          = az_of (geo_cc_of pj satellite_pos1) (geo_cc_of pj satellite_pos2).
Proof.
  cbn zeta. split.
  - unfold generateProjections. cbn [snd].
    match goal with
    | |- g_calls (fold_left (scan_step ?s ?obj) ?l ?g) = _ =>
        destruct (fold_scan_step s obj l g) as (_ & Hc & _)
    end.
    cbn zeta in Hc. rewrite Hc. reflexivity.
  - intros ts. split; reflexivity.
Qed.

(** C8.  For every scan line, the projection saved for the line is
    initialised with the azimuth that is the raw finite-difference
    azimuth minus 90 degrees, the configured azimuth offset being
    subtracted when the raw azimuth (before the shift) is strictly
    positive and added otherwise. *)
Theorem azimuth_of_saved_projections (p : LEOScanProjector) :
  projs (fst (generateProjections p))
  = projs p
    ++ map (fun ts =>
              let s := settings p in
              let satellite_object :=
                predict_parse_tle (line1 (sat_tle s)) (line2 (sat_tle s)) in
              let t := scan_timestamp s ts in
              let satellite_orbit :=
                predict_orbit satellite_object (predict_to_julian_double t) in
              let raw_az := scan_azimuth satellite_object t in
              let shifted := b32_sub raw_az (b32_of_int 90) in
              tpers_init (b64_mul (altitude satellite_orbit) (b64_of_int 1000))
                         (b64_mul (longitude satellite_orbit) d_57_29578)
                         (b64_mul (latitude satellite_orbit) d_57_29578)
                         (to_double (tilt_offset s))
                         (to_double (if SFltb (b32_of_int 0) raw_az
                                     then b32_sub shifted (az_offset s)
                                     else b32_add shifted (az_offset s))))
          (scans (settings p)).
Proof.
  unfold generateProjections. cbn [fst projs].
  match goal with
  | |- g_projs (fold_left (scan_step ?s ?obj) ?l ?g) = _ =>
      destruct (fold_scan_step s obj l g) as (Hp & _)
  end.
  cbn zeta in Hp. rewrite Hp. reflexivity.
Qed.

(** *** Coinciding samples *)

Lemma b32_sub_diag (x : spec_float) :
  b32_sub x x = S754_zero false \/ b32_sub x x = S754_nan.
Proof.
  destruct x as [[]|[]| |s m e]; cbn; auto.
  left. unfold b32_sub, SFsub. rewrite Z.sub_diag. reflexivity.
Qed.

Lemma az_quotient_diag (geo : spec_float * spec_float) :
  az_quotient geo geo = S754_nan.
Proof.
  unfold az_quotient.
  destruct (b32_sub_diag (snd geo)) as [-> | ->],
           (b32_sub_diag (fst geo)) as [-> | ->]; reflexivity.
Qed.

Lemma offset_azimuth_nan (s : LEOScanProjectorSettings spec_float) :
  offset_azimuth s S754_nan = S754_nan.
Proof. reflexivity. Qed.

(** C4, on the code.  When the two samples project to the same point of
    the tangent plane the quotient handed to the arc tangent is the NaN
    of the division 0 / 0; with an arc tangent that maps NaN to NaN, as
    that of the C library does, the azimuth is NaN, and so is the
    azimuth after the quarter turn and the offset: no fallback value is
    substituted. *)
Theorem azimuth_of_coinciding_samples (s : LEOScanProjectorSettings spec_float)
    (geo : spec_float * spec_float) :
  c_atan S754_nan = S754_nan ->
  az_quotient geo geo = S754_nan
  /\ az_of geo geo = S754_nan
  /\ offset_azimuth s (az_of geo geo) = S754_nan.
Proof.
  intros Hatan. unfold az_of. rewrite az_quotient_diag, Hatan.
  repeat split.
Qed.

(** *** The inverse query *)

Lemma wrap32_small (z : Z) : INT_MIN <= z <= INT_MAX -> wrap32 z = z.
Proof.
  unfold wrap32, INT_MIN, INT_MAX. intros Hz.
  rewrite Z.mod_small by lia. lia.
Qed.

Lemma vec_at_length {A : Type} (v : list A) : vec_at v (Z.of_nat (length v)) = None.
Proof.
  unfold vec_at. destruct (0 <=? Z.of_nat (length v)); [|reflexivity].
  rewrite Nat2Z.id. apply lookup_ge_None. lia.
Qed.

(** The part of the bounds check that holds: a line index above the
    number of lines, or a pixel that is not below the image width, gives
    the return value 1 and no vector is read. *)
Lemma inverse_out_of_range (p : LEOScanProjector) (img_x img_y : Z) (correct : bool) :
  Z.of_nat (length (projs p)) <= INT_MAX ->
  Z.of_nat (length (projs p)) < img_y \/ image_width (settings p) <= img_x ->
  inverse p img_x img_y correct = OutOfRange.
Proof.
  intros Hlen Hout. unfold inverse.
  rewrite wrap32_small by (unfold INT_MIN; lia).
  destruct Hout as [Hy|Hx].
  - apply Z.ltb_lt in Hy. now rewrite Hy.
  - apply Z.leb_le in Hx. rewrite Hx. now rewrite orb_true_r.
Qed.

(** C1, on the code.  A query whose line index equals the number of
    lines, with a pixel inside the image, passes the bounds check (which
    tests [img_y > size], not [img_y >= size]) and reads [projs] past
    its last element instead of returning 1. *)
Theorem inverse_reads_past_end (p : LEOScanProjector) (img_x : Z) (correct : bool) :
  Z.of_nat (length (projs p)) <= INT_MAX ->
  img_x < image_width (settings p) ->
  inverse p img_x (Z.of_nat (length (projs p))) correct = LineReadPastEnd.
Proof.
  intros Hlen Hx. unfold inverse.
  rewrite wrap32_small by (unfold INT_MIN; lia).
  rewrite Z.ltb_irrefl.
  destruct (image_width (settings p) <=? img_x) eqn:E;
    [apply Z.leb_le in E; lia|].
  cbn [orb]. now rewrite vec_at_length.
Qed.

(** C7.  For every in-range query (the line exists, the pixel is below
    the image width and, when the curvature is corrected, inside the
    inverse table) the return value of the projection's [inverse] is
    forwarded, and the coordinate handed to it is the (optionally
    curvature-resolved) pixel, mirrored as [(width - 1) - pixel] when
    the scan is inverted, minus half the reference width, plus the pixel
    offset, divided by (projection scale x half width), and finally
    multiplied by (instrument swath / footprint of that line). *)
Theorem inverse_projection_coordinate (p : LEOScanProjector) (img_x img_y : Z)
    (correct : bool) (pj : TPERSProjection) (line_footprint : spec_float) (pixel : Z) :
  Z.of_nat (length (projs p)) <= INT_MAX ->
  0 <= img_y ->
  projs p !! Z.to_nat img_y = Some pj ->
  sat_footprints p !! Z.to_nat img_y = Some line_footprint ->
  img_x < image_width (settings p) ->
  (if correct then rv_load img_x (curvature_correction_factors_inv p)
   else Some img_x) = Some pixel ->
  let s := settings p in
  let width := b64_of_int (if correct then corrected_width p else image_width s) in
  let half_width := b64_div width (b64_of_int 2) in
  let mirrored :=
    if invert_scan s
    then b64_sub (b64_sub width (b64_of_int 1)) (b64_of_int pixel)
    else b64_of_int pixel in
  let recentred := b64_sub mirrored half_width in
  let shifted := b64_add recentred (to_double (proj_offset s)) in
  let normalised := b64_div shifted (b64_mul (to_double (proj_scale s)) half_width) in
  let x := b64_mul normalised (b64_div (to_double (instrument_swath s)) line_footprint) in
  inverse p img_x img_y correct
  = Forwarded (fst (tpers_inverse pj x (b64_of_int 0)))
              (fst (snd (tpers_inverse pj x (b64_of_int 0))))
              (snd (snd (tpers_inverse pj x (b64_of_int 0)))).
Proof.
  intros Hlen Hy Hpj Hfp Hx Hpix. cbn zeta. unfold inverse.
  rewrite wrap32_small by (unfold INT_MIN; lia).
  apply lookup_lt_Some in Hpj as Hlt.
  destruct (Z.of_nat (length (projs p)) <? img_y) eqn:E1;
    [apply Z.ltb_lt in E1; lia|].
  destruct (image_width (settings p) <=? img_x) eqn:E2;
    [apply Z.leb_le in E2; lia|].
  cbn [orb]. unfold vec_at.
  destruct (0 <=? img_y) eqn:E3; [|apply Z.leb_gt in E3; lia].
  rewrite Hpj, Hfp.
  destruct correct.
  - rewrite Hpix. cbn [option_map]. unfold projection_x.
    destruct (tpers_inverse pj _ _) as [rc [lon lat]]. reflexivity.
  - injection Hpix as <-. unfold projection_x.
    destruct (tpers_inverse pj _ _) as [rc [lon lat]]. reflexivity.
Qed.
End Facts.

(** *** Instances *)

Import ProjectorSamples.

Lemma inverse_reads_past_end_witness :
  inverse one_scan 0 1 false = LineReadPastEnd.
Proof.
  apply (inverse_reads_past_end one_scan 0 false).
  - vm_compute. discriminate.
  - vm_compute. reflexivity.
Defined.

Lemma inverse_projection_coordinate_witness :
  exists rc lon lat,
    inverse one_scan 45 0 true
    = Forwarded rc lon lat.
Proof.
  do 3 eexists.
  apply (inverse_projection_coordinate one_scan 45 0 true
           (Build_flat_projection (b64_of_int 827000) (S754_zero false)
              (S754_zero false) (S754_zero false) S754_nan)
           (b64_of_int 6000) 45).
  - vm_compute. discriminate.
  - lia.
  - reflexivity.
  - reflexivity.
  - vm_compute. reflexivity.
  - reflexivity.
Defined.

Lemma azimuth_of_coinciding_samples_witness :
  az_of (libm := plain_libm) (b32_of_int 100, b32_of_int 99) (b32_of_int 100, b32_of_int 99)
  = S754_nan.
Proof.
  apply (azimuth_of_coinciding_samples (libm := plain_libm) (mwts2_settings 90 [])
           (b32_of_int 100, b32_of_int 99)).
  reflexivity.
Defined.

(** On an orbit that does not move the line is saved with the azimuth
    NaN. *)
Lemma stationary_orbit_azimuth :
  map fp_azi (projs one_scan) = [S754_nan].
Proof. reflexivity. Qed.

(** C2 as stated fails: for one scan at 1000 s the oracle is called at
    1000 s, 800 s and 1200 s; it is not called 200 ms before or after
    the scan.  And on an orbit that drifts, the azimuth of that scan is
    not the one the positions 200 ms before and after it give: those two
    fall on the same tangent-plane pixel. *)
Lemma oracle_not_called_at_200_ms :
  let calls :=
    snd (generateProjections (predict := still_orbit) (libm := plain_libm)
           one_scan_start) in
  let t := b64_of_int 1000 in
  let pj :=
    nadir_projection (tpers := flat_tpers)
      (predict_orbit (PredictLib := drifting_orbit) tt t) in
  calls = [b64_of_int 1000; b64_of_int 800; b64_of_int 1200]
  /\ ~ In (b64_sub (b64_of_int 1000) ms_200) calls
  /\ ~ In (b64_add (b64_of_int 1000) ms_200) calls
  /\ scan_azimuth (predict := drifting_orbit) (tpers := flat_tpers)
        (libm := plain_libm) tt t
     <> az_of (libm := plain_libm)
          (geo_cc_of pj (predict_orbit (PredictLib := drifting_orbit) tt
                           (b64_sub t ms_200)))
          (geo_cc_of pj (predict_orbit (PredictLib := drifting_orbit) tt
                           (b64_add t ms_200))).
Proof.
  cbn zeta. split; [reflexivity|].
  split; [|split].
  - vm_compute. intros H.
    repeat (destruct H as [H|H]; [discriminate H|]). exact H.
  - vm_compute. intros H.
    repeat (destruct H as [H|H]; [discriminate H|]). exact H.
  - vm_compute. discriminate.
Qed.
End ProjectorFacts.

(** ** The MWTS-3 reader *)

Module MWTS3Facts.
Import MWTS3.
Section Facts.
Context {ccsds_time : CCSDSTime}.

(** Closes a goal on the range of an [int]. *)
Ltac int_range := unfold INT_MIN, INT_MAX in *; lia.

Lemma int_add_ok (a b : Z) :
  INT_MIN <= a + b <= INT_MAX -> int_add a b = Some (a + b).
Proof.
  intros [H1 H2]. unfold int_add.
  apply Z.leb_le in H1, H2. now rewrite H1, H2.
Qed.

Lemma int_mul_ok (a b : Z) :
  INT_MIN <= a * b <= INT_MAX -> int_mul a b = Some (a * b).
Proof.
  intros [H1 H2]. unfold int_mul.
  apply Z.leb_le in H1, H2. now rewrite H1, H2.
Qed.

Lemma payload_at_ok (packet : CCSDSPacket) (k : Z) :
  0 <= k < Z.of_nat (length (payload packet)) ->
  exists b, payload_at packet k = Some b.
Proof.
  intros [H1 H2]. unfold payload_at.
  destruct (lookup_lt_is_Some_2 (payload packet) (Z.to_nat k)) as [b Hb]; [lia|].
  apply Z.leb_le in H1 as ->.
  rewrite Hb. eexists. reflexivity.
Qed.

Lemma set_sample_shape (n : nat) (chs : list (list Z)) (c idx v : Z) :
  shape n chs -> 0 <= c < 18 -> 0 <= idx < Z.of_nat n ->
  exists chs', set_sample chs c idx v = Some chs' /\ shape n chs'.
Proof.
  intros [Hlen Hall] Hc Hidx. unfold set_sample.
  destruct (0 <=? c) eqn:E; [|apply Z.leb_gt in E; lia].
  destruct (lookup_lt_is_Some_2 chs (Z.to_nat c)) as [ch Hch]; [lia|].
  rewrite Hch.
  assert (Hn : length ch = n).
  { eapply Forall_lookup_1 in Hall; [exact Hall | exact Hch]. }
  rewrite Hn.
  destruct ((0 <=? idx) && (idx <? Z.of_nat n)) eqn:E2.
  - eexists. split; [reflexivity|]. split.
    + now rewrite length_insert.
    + apply Forall_insert; [assumption|]. now rewrite length_insert.
  - apply andb_false_iff in E2 as [E2|E2];
      [apply Z.leb_gt in E2 | apply Z.ltb_ge in E2]; lia.
Qed.

Lemma for_loop_S {S : Type} (n : nat) (body : S -> Z -> option S) (s : S) :
  for_loop (Datatypes.S n) body s = (s' ← for_loop n body s; body s' (Z.of_nat n)).
Proof.
  unfold for_loop. rewrite seq_S, map_app, foldl_app. reflexivity.
Qed.

(** A loop whose body keeps [P] and has a result on every index has a
    result, which satisfies [P]. *)
Lemma for_loop_inv {S : Type} (P : S -> Prop) (n : nat)
    (body : S -> Z -> option S) (s : S) :
  P s ->
  (forall s k, P s -> 0 <= k < Z.of_nat n -> exists s', body s k = Some s' /\ P s') ->
  exists s', for_loop n body s = Some s' /\ P s'.
Proof.
  intros Hs Hbody. induction n as [|n IH].
  - exists s. split; [reflexivity | assumption].
  - destruct IH as (s1 & H1 & HP1).
    { intros s0 k HP Hk. apply Hbody; [assumption | lia]. }
    rewrite for_loop_S, H1. cbn [mbind option_bind].
    apply Hbody; [assumption | lia].
Qed.

Lemma copy_sample_shape (packet : CCSDSPacket) (lines pos first i c : Z)
    (n : nat) (chs : list (list Z)) :
  shape n chs ->
  0 <= lines -> 0 <= first -> 0 <= i -> 0 <= c < 18 -> 0 <= pos ->
  pos + (18 * i + c) * 2 + 1 < Z.of_nat (length (payload packet)) ->
  lines * 98 + first + i < Z.of_nat n ->
  Z.of_nat n <= INT_MAX ->
  exists chs', copy_sample packet lines pos first i chs c = Some chs' /\ shape n chs'.
Proof.
  intros Hsh Hl Hf Hi Hc Hpos Hpay Hidx Hmax. unfold copy_sample.
  destruct (payload_at_ok packet (pos + (18 * i + c) * 2 + 0)) as [hi ->]; [lia|].
  destruct (payload_at_ok packet (pos + (18 * i + c) * 2 + 1)) as [lo ->]; [lia|].
  cbn [mbind option_bind].
  unfold INT_MAX in Hmax.
  rewrite int_mul_ok by int_range. cbn [mbind option_bind].
  rewrite int_add_ok by int_range. cbn [mbind option_bind].
  rewrite int_add_ok by int_range. cbn [mbind option_bind].
  apply set_sample_shape; [assumption | lia | lia].
Qed.

Lemma copy_block_shape (packet : CCSDSPacket) (lines pos count first : Z)
    (n : nat) (chs : list (list Z)) :
  shape n chs ->
  0 <= lines -> 0 <= first -> 0 <= count -> 0 <= pos ->
  pos + (18 * (count - 1) + 17) * 2 + 1 < Z.of_nat (length (payload packet)) ->
  lines * 98 + first + count <= Z.of_nat n ->
  Z.of_nat n <= INT_MAX ->
  exists chs', copy_block packet lines pos count first chs = Some chs' /\ shape n chs'.
Proof.
  intros Hsh Hl Hf Hcount Hpos Hpay Hidx Hmax. unfold copy_block.
  apply for_loop_inv; [assumption|].
  intros chs1 i Hsh1 Hi.
  apply for_loop_inv; [assumption|].
  intros chs2 c Hsh2 Hc.
  apply copy_sample_shape; try assumption; lia.
Qed.

Lemma marker_of_ok (packet : CCSDSPacket) :
  1018 <= Z.of_nat (length (payload packet)) ->
  exists m, marker_of packet = Some m.
Proof.
  intros Hlen. unfold marker_of.
  destruct (payload_at_ok packet 0) as [b ->]; [lia|].
  eexists. reflexivity.
Qed.

Lemma shape_of_inv (r : MWTS3Reader) :
  reader_inv r -> shape (Z.to_nat ((lines r + 1) * 98)) (channels r).
Proof.
  intros (Hlen & Hall & _). split; [assumption|].
  eapply Forall_impl; [exact Hall|]. cbn. intros ch Hch. lia.
Qed.

Lemma resize_shape (n : nat) (chs : list (list Z)) :
  length chs = 18%nat ->
  shape n (map (fun ch => resize n 0 ch) chs).
Proof.
  intros Hlen. split; [now rewrite length_map|].
  apply Forall_fmap, Forall_forall. intros ch _. cbn. apply length_resize.
Qed.

Lemma reader_inv_new : reader_inv MWTS3Reader_new.
Proof.
  split; [reflexivity|]. split; [|reflexivity].
  cbn. repeat constructor.
Qed.

Lemma work_short (r : MWTS3Reader) (packet : CCSDSPacket) :
  Z.of_nat (length (payload packet)) < 1018 -> work r packet = Some r.
Proof.
  intros Hlen. unfold work. apply Z.ltb_lt in Hlen. now rewrite Hlen.
Qed.

Lemma inv_of_shape (chs : list (list Z)) (l : Z) (ts : list spec_float) :
  length chs = 18%nat -> 0 <= l -> l = Z.of_nat (length ts) ->
  reader_inv {| channels := map (fun ch => resize (Z.to_nat ((l + 1) * 98)) 0 ch) chs;
                lines := l;
                timestamps := ts |}.
Proof.
  intros Hlen Hl Hts.
  destruct (resize_shape (Z.to_nat ((l + 1) * 98)) chs Hlen) as [H18 Hall].
  split; [exact H18|]. split; [|exact Hts].
  cbn [channels lines]. eapply Forall_impl; [exact Hall|].
  cbn. intros ch Hch. lia.
Qed.

Lemma work_long (r : MWTS3Reader) (packet : CCSDSPacket) :
  reader_inv r ->
  1018 <= Z.of_nat (length (payload packet)) ->
  (lines r + 2) * 98 <= INT_MAX ->
  exists m r',
    marker_of packet = Some m
    /\ work r packet = Some r'
    /\ reader_inv r'
    /\ (m = 1 -> lines r' = lines r + 1
                 /\ exists t, timestamps r' = timestamps r ++ [t])
    /\ (m <> 1 -> lines r' = lines r /\ timestamps r' = timestamps r).
Proof.
  intros Hinv Hlen Hmax.
  pose proof (shape_of_inv r Hinv) as Hsh.
  destruct Hinv as (H18 & Hall & Hts).
  assert (Hl : 0 <= lines r) by lia.
  destruct (marker_of_ok packet Hlen) as [m Hm].
  exists m. unfold work.
  destruct (Z.of_nat (length (payload packet)) <? 1018) eqn:E;
    [apply Z.ltb_lt in E; lia|].
  rewrite Hm. cbn [mbind option_bind].
  unfold INT_MAX in Hmax.
  assert (Hblock : forall pos count first,
             0 <= first -> 0 <= count -> 0 <= pos ->
             pos + (18 * (count - 1) + 17) * 2 + 1 < 1018 ->
             first + count <= 98 ->
             exists chs',
               copy_block packet (lines r) pos count first (channels r) = Some chs'
               /\ length chs' = 18%nat).
  { intros pos count first Hf Hc Hp Hpay Hidx.
    destruct (copy_block_shape packet (lines r) pos count first
                (Z.to_nat ((lines r + 1) * 98)) (channels r))
      as (chs' & Hcopy & Hlen' & _); try assumption; try lia.
    - unfold INT_MAX. lia.
    - exists chs'. split; assumption. }
  destruct (m =? 1) eqn:E1.
  { apply Z.eqb_eq in E1. subst m.
    destruct (Hblock (224 + 144 * 2) 14 0) as (chs' & -> & Hlen'); try lia.
    cbn [mbind option_bind].
    rewrite int_add_ok by int_range.
    cbn [mbind option_bind lines channels timestamps].
    rewrite int_add_ok by int_range.
    cbn [mbind option_bind].
    rewrite int_mul_ok by int_range.
    cbn [mbind option_bind].
    eexists. split; [reflexivity|]. split; [reflexivity|]. split.
    { apply inv_of_shape; [assumption | lia |].
      rewrite length_app. cbn [length]. lia. }
    split.
    - intros _. cbn [lines timestamps]. split; [reflexivity|]. eexists. reflexivity.
    - intros Hne. now contradiction Hne. }
  assert (Hne : m <> 1) by (apply Z.eqb_neq; assumption).
  assert (Hrest : forall chs',
             length chs' = 18%nat ->
             exists r',
               (n ← int_add (lines r) 1;
                n0 ← int_mul n 98;
                Some {| channels := map (fun ch => resize (Z.to_nat n0) 0 ch) chs';
                        lines := lines r;
                        timestamps := timestamps r |}) = Some r'
               /\ reader_inv r'
               /\ lines r' = lines r /\ timestamps r' = timestamps r).
  { intros chs' Hlen'.
    rewrite int_add_ok by int_range.
    cbn [mbind option_bind].
    rewrite int_mul_ok by int_range.
    cbn [mbind option_bind].
    eexists. split; [reflexivity|]. split; [|split; reflexivity].
    apply inv_of_shape; [assumption | lia | assumption]. }
  assert (Hfinish : forall o : option (list (list Z)),
             (exists chs', o = Some chs' /\ length chs' = 18%nat) ->
             exists r',
               (r0 ← (chs ← o;
                      Some {| channels := chs; lines := lines r;
                              timestamps := timestamps r |});
                n ← int_add (lines r0) 1;
                n0 ← int_mul n 98;
                Some {| channels := map (fun ch => resize (Z.to_nat n0) 0 ch) (channels r0);
                        lines := lines r0;
                        timestamps := timestamps r0 |}) = Some r'
               /\ reader_inv r'
               /\ lines r' = lines r /\ timestamps r' = timestamps r).
  { intros o (chs' & -> & Hlen'). cbn [mbind option_bind lines channels timestamps].
    apply Hrest. assumption. }
  assert (Hgoal : forall o : option MWTS3Reader,
             (exists r', o = Some r' /\ reader_inv r'
                         /\ lines r' = lines r /\ timestamps r' = timestamps r) ->
             exists r', Some m = Some m /\ o = Some r' /\ reader_inv r'
               /\ (m = 1 -> lines r' = lines r + 1
                            /\ exists t, timestamps r' = timestamps r ++ [t])
               /\ (m <> 1 -> lines r' = lines r /\ timestamps r' = timestamps r)).
  { intros o (r' & -> & Hinv' & Hl' & Ht').
    exists r'. split; [reflexivity|]. split; [reflexivity|]. split; [assumption|].
    split; [intros; contradiction | intros _; split; assumption]. }
  apply Hgoal.
  destruct (m =? 2) eqn:E2.
  { apply Hfinish, Hblock; lia. }
  destruct (m =? 3) eqn:E3.
  { apply Hfinish, Hblock; lia. }
  destruct (m =? 4) eqn:E4.
  { apply Hfinish, Hblock; lia. }
  cbn [mbind option_bind]. apply Hrest. assumption.
Qed.

(** C10.  The reader keeps its invariant: after the constructor and
    after every call of [work], each of the 18 channel buffers holds
    (lines + 1) * 98 samples and [lines] is the number of time stamps.
    A packet with fewer than 1018 payload bytes leaves the reader as it
    is.  A call increments [lines] and appends one time stamp exactly
    when the payload has at least 1018 bytes and the marker is 1.  (The
    call is taken while (lines + 2) * 98 still fits an [int].) *)
Theorem reader_invariant :
  reader_inv MWTS3Reader_new
  /\ forall (r : MWTS3Reader) (packet : CCSDSPacket),
       reader_inv r ->
       (Z.of_nat (length (payload packet)) < 1018 -> work r packet = Some r)
       /\ ((lines r + 2) * 98 <= INT_MAX ->
           exists r',
             work r packet = Some r'
             /\ reader_inv r'
             /\ ((lines r' = lines r + 1
                  /\ exists t, timestamps r' = timestamps r ++ [t])
                 <-> (1018 <= Z.of_nat (length (payload packet))
                      /\ marker_of packet = Some 1))).
Proof.
  split; [exact reader_inv_new|].
  intros r packet Hinv. split; [apply work_short|].
  intros Hmax.
  destruct (Z_lt_le_dec (Z.of_nat (length (payload packet))) 1018) as [Hshort|Hlong].
  - exists r. split; [now apply work_short|]. split; [assumption|].
    split; [intros [Hl _]; lia | intros [Hl _]; lia].
  - destruct (work_long r packet Hinv Hlong Hmax)
      as (m & r' & Hm & Hw & Hinv' & H1 & Hn1).
    exists r'. split; [assumption|]. split; [assumption|]. split.
    + intros [Hl _]. split; [assumption|].
      destruct (Z.eq_dec m 1) as [->|Hne]; [assumption|].
      destruct (Hn1 Hne) as [Hl' _]. lia.
    + intros [_ Hm1]. apply H1. congruence.
Qed.
End Facts.

(** *** An instance *)

Import MWTS3Samples.

Lemma reader_invariant_witness :
  exists r',
    work (ccsds_time := zero_time) MWTS3Reader_new first_packet = Some r'
    /\ reader_inv r'
    /\ lines r' = 1.
Proof.
  destruct (proj2 (reader_invariant (ccsds_time := zero_time))
              MWTS3Reader_new first_packet
              (proj1 (reader_invariant (ccsds_time := zero_time))))
    as [_ Hlong].
  destruct Hlong as (r' & Hw & Hinv & Hiff).
  - vm_compute. discriminate.
  - exists r'. split; [exact Hw|]. split; [exact Hinv|].
    apply Hiff. split; [vm_compute; discriminate | reflexivity].
Defined.
End MWTS3Facts.


(** ** The curvature tables: when the builder returns, cells never written *)

Module CurvatureMore.
Import Curvature CurvatureFacts.
Section Generic.
Context {num : Type} {arith : Arith num}.
Variable s : LEOScanProjectorSettings num.


(** X2.  When the corrected width, round(swath / resolution), is zero
    or negative the loop does not run: the forward table is empty and
    the inverse table is the reserved storage, untouched. *)
Theorem tables_of_empty_swath (uninit : nat -> Z) :
  0 <= image_width s ->
  corrected_width_of s <= 0 ->
  initCurvatureTable s uninit
  = Some {| corrected_width := corrected_width_of s;
            curvature_correction_factors_fwd := [];
            curvature_correction_factors_inv :=
              {| rv_size := 0;
                 rv_cells := map uninit (seq 0 (Z.to_nat (image_width s))) |} |}.
Proof.
  intros Hw Hcw. unfold initCurvatureTable.
  destruct (image_width s <? 0) eqn:E; [apply Z.ltb_lt in E; lia|].
  replace (Z.to_nat (corrected_width_of s)) with 0%nat by lia.
  cbn. now rewrite rv_reserve_empty by assumption.
Qed.

Lemma free_cell (bins : list Z) (W : nat) :
  (length bins < W)%nat -> exists c : nat, (c < W)%nat /\ ~ In (Z.of_nat c) bins.
Proof.
  revert bins. induction W as [|W IH]; intros bins Hlen; [lia|].
  destruct (in_dec Z.eq_dec (Z.of_nat W) bins) as [Hin|Hout].
  - destruct (IH (List.remove Z.eq_dec (Z.of_nat W) bins)) as (c & Hc & Hfree).
    { pose proof (remove_length_lt Z.eq_dec bins (Z.of_nat W) Hin). lia. }
    exists c. split; [lia|]. intros Hcin. apply Hfree.
    apply in_in_remove; [lia | exact Hcin].
  - exists W. split; [lia | exact Hout].
Qed.

Lemma unwritten_cell (uninit : nat -> Z) (t : CurvatureTables) (c : nat) :
  initCurvatureTable s uninit = Some t ->
  (c < Z.to_nat (image_width s))%nat ->
  (forall i, 0 <= i < corrected_width_of s -> bin_of s i <> Z.of_nat c) ->
  rv_cells (curvature_correction_factors_inv t) !! c = Some (uninit c).
Proof.
  intros Hinit Hc Hfree.
  destruct (initCurvatureTable_cells s uninit t c Hinit Hc)
    as [[Hcell _]|(k & Hk & Hbk & _)].
  - exact Hcell.
  - exfalso. now apply (Hfree k).
Qed.

(** X3.  A cell of the inverse table that no corrected index falls into
    is never written: it holds what the allocation held.  When the
    corrected width is smaller than the image width there is such a
    cell, so that the inverse table handed to [inverse] has entries
    that were never initialised. *)
Theorem inverse_table_has_unwritten_cells (uninit : nat -> Z) (t : CurvatureTables) :
  initCurvatureTable s uninit = Some t ->
  0 < image_width s ->
  corrected_width_of s < image_width s ->
  exists c : nat,
    (c < Z.to_nat (image_width s))%nat
    /\ (forall i, 0 <= i < corrected_width_of s ->
         to_int (raw_pixel_of s i) <> Z.of_nat c)
    /\ rv_cells (curvature_correction_factors_inv t) !! c = Some (uninit c).
Proof.
  intros Hinit Hw Hcw.
  destruct (free_cell (map (bin_of s)
                         (map Z.of_nat (seq 0 (Z.to_nat (corrected_width_of s)))))
                      (Z.to_nat (image_width s))) as (c & Hc & Hfree).
  { rewrite !length_map, length_seq. lia. }
  assert (Hno : forall i, 0 <= i < corrected_width_of s -> bin_of s i <> Z.of_nat c).
  { intros i Hi Hbin. apply Hfree. rewrite <- Hbin. apply in_map.
    apply in_map_iff. exists (Z.to_nat i). split; [lia|]. apply in_seq. lia. }
  exists c. split; [exact Hc|]. split; [exact Hno|].
  now apply (unwritten_cell uninit t c Hinit).
Qed.
End Generic.

(** *** In single precision *)

Section SinglePrecision.
Variables c_sinf c_cosf c_atanf : spec_float -> spec_float.
Variable s : LEOScanProjectorSettings spec_float.

#[local] Instance single_arith : Arith spec_float := Float32_arith c_sinf c_cosf c_atanf.

(** X18.  A raw position [f] that is NaN or infinite leaves the builder
    without tables: [int(f)] is then not a raw pixel (the conversion is
    itself undefined; on x86 it gives INT_MIN) and the write
    [curvature_correction_factors_inv[int(f)] = i] lands outside of the
    storage.  No test of [f] precedes the write. *)
Theorem no_tables_with_a_position_that_is_no_number (uninit : nat -> Z) (i : Z) :
  0 <= i < corrected_width_of s ->
  SFtrunc (raw_pixel_of s i) = None ->
  initCurvatureTable s uninit = None.
Proof.
  intros Hi Hnan.
  destruct (initCurvatureTable s uninit) as [t|] eqn:Hinit; [|reflexivity].
  exfalso.
  pose proof (initCurvatureTable_inside s uninit t Hinit i Hi) as [Hlo _].
  unfold bin_of in Hlo. change (to_int (raw_pixel_of s i)) with (to_int32 (raw_pixel_of s i)) in Hlo.
  unfold to_int32 in Hlo. rewrite Hnan in Hlo. unfold INT_MIN in Hlo. lia.
Qed.
End SinglePrecision.

(** *** Instances *)

Import Samples FloatSamples.

Lemma no_tables_with_a_position_that_is_no_number_witness :
  initCurvatureTable absorbed minus_ones = None.
Proof.
  apply (no_tables_with_a_position_that_is_no_number
           sample_sinf sample_cosf sample_atanf absorbed minus_ones 2).
  - vm_compute. split; congruence.
  - vm_compute. reflexivity.
Defined.

(** No swath at all, one raw pixel. *)
Lemma empty_swath_width :
  corrected_width_of
    (float_config (b32_of_int 0) (b32_of_int 350) (b32_of_int 827) 1 []) <= 0.
Proof. vm_compute. discriminate. Defined.

Lemma tables_of_empty_swath_witness :
  initCurvatureTable
    (float_config (b32_of_int 0) (b32_of_int 350) (b32_of_int 827) 1 []) minus_ones
  = Some {| corrected_width := 0;
            curvature_correction_factors_fwd := [];
            curvature_correction_factors_inv :=
              {| rv_size := 0; rv_cells := [-1] |} |}.
Proof.
  assert (Hw : 0 <= image_width
                      (float_config (b32_of_int 0) (b32_of_int 350) (b32_of_int 827) 1 []))
    by (cbn; lia).
  exact (tables_of_empty_swath
           (float_config (b32_of_int 0) (b32_of_int 350) (b32_of_int 827) 1 [])
           minus_ones Hw empty_swath_width).
Defined.

Lemma inverse_table_has_unwritten_cells_witness :
  exists t,
    initCurvatureTable (coarse 8) minus_ones = Some t
    /\ exists c : nat,
         (c < 8)%nat
         /\ rv_cells (curvature_correction_factors_inv t) !! c = Some (-1).
Proof.
  destruct (initCurvatureTable (coarse 8) minus_ones) as [t|] eqn:Ht;
    [|vm_compute in Ht; discriminate Ht].
  exists t. split; [reflexivity|].
  destruct (inverse_table_has_unwritten_cells (coarse 8) minus_ones t Ht)
    as (c & Hc & _ & Hcell).
  - reflexivity.
  - vm_compute. reflexivity.
  - exists c. split; [exact Hc | exact Hcell].
Defined.
End CurvatureMore.
(** ** The projector: what construction leaves, and the guard of the query *)

Module ProjectorMore.
Import Projector ProjectorFacts.
Section More.
Context {predict : PredictLib} {tpers : TPERSLib} {libm : LibM}.

(** X7.  [generateProjections] appends, for every scan and in scan
    order, one position, one projection and one footprint; the position
    and the footprint of a line are those the oracle gives at the time
    stamp of the line itself (time offset applied), not at the two
    times used for the azimuth.  The settings and the curvature tables
    are left as they are. *)
Theorem generateProjections_appends (p : LEOScanProjector) :
  let s := settings p in
  let satellite_object := predict_parse_tle (line1 (sat_tle s)) (line2 (sat_tle s)) in
  let position ts :=
    predict_orbit satellite_object (predict_to_julian_double (scan_timestamp s ts)) in
  let p' := fst (generateProjections p) in
  poss p' = poss p ++ map position (scans s)
  /\ sat_footprints p' = sat_footprints p ++ map (fun ts => footprint (position ts)) (scans s)
  /\ length (projs p') = (length (projs p) + length (scans s))%nat
  /\ settings p' = s
  /\ corrected_width p' = corrected_width p
  /\ curvature_correction_factors_fwd p' = curvature_correction_factors_fwd p
  /\ curvature_correction_factors_inv p' = curvature_correction_factors_inv p.
Proof.
  cbn zeta. unfold generateProjections.
  cbn [fst poss sat_footprints projs settings corrected_width
       curvature_correction_factors_fwd curvature_correction_factors_inv].
  match goal with
  | |- context [fold_left (scan_step ?s ?obj) ?l ?g] =>
      destruct (fold_scan_step s obj l g) as (Hp & _ & Hf & Hs)
  end.
  cbn zeta in Hp, Hf, Hs. rewrite Hp, Hf, Hs. cbn [g_poss g_projs g_footprints].
  rewrite length_app, length_map. repeat split.
Qed.

(** X8.  The bounds check of [inverse], exactly: the call returns 1
    without reading a vector if and only if the line index is above the
    number of lines or the pixel is not below the image width.  Every
    other query, a negative index included, goes on to the vectors. *)
Theorem inverse_returns_1_iff (p : LEOScanProjector) (img_x img_y : Z) (correct : bool) :
  Z.of_nat (length (projs p)) <= INT_MAX ->
  inverse p img_x img_y correct = OutOfRange
  <-> (Z.of_nat (length (projs p)) < img_y \/ image_width (settings p) <= img_x).
Proof.
  intros Hlen. split; [|now apply inverse_out_of_range].
  unfold inverse. rewrite wrap32_small by (unfold INT_MIN; lia).
  destruct (Z.of_nat (length (projs p)) <? img_y) eqn:E1;
    [apply Z.ltb_lt in E1; now left|].
  destruct (image_width (settings p) <=? img_x) eqn:E2;
    [apply Z.leb_le in E2; now right|].
  cbn [orb].
  destruct (vec_at (projs p) img_y) as [pj|]; [|discriminate].
  destruct (vec_at (sat_footprints p) img_y) as [fp|]; [|discriminate].
  destruct correct.
  - destruct (rv_load img_x (curvature_correction_factors_inv p)) as [v|];
      [|discriminate].
    cbn [option_map]. destruct (tpers_inverse pj _ _) as [rc [lon lat]]. discriminate.
  - destruct (tpers_inverse pj _ _) as [rc [lon lat]]. discriminate.
Qed.

(** X9.  The guard of [inverse] has no lower bounds.  A negative line
    index with a pixel below the image width is not rejected and reads
    [projs] before its first element; and on an existing line, with the
    curvature correction, a negative pixel is not rejected and reads the
    inverse table before its first cell. *)
Theorem inverse_guard_has_no_lower_bound (p : LEOScanProjector) (img_x img_y : Z)
    (correct : bool) :
  Z.of_nat (length (projs p)) <= INT_MAX ->
  img_x < image_width (settings p) ->
  (img_y < 0 -> inverse p img_x img_y correct = LineReadPastEnd)
  /\ (0 <= img_y < Z.of_nat (length (projs p)) ->
      length (sat_footprints p) = length (projs p) ->
      img_x < 0 ->
      inverse p img_x img_y true = TableReadPastEnd).
Proof.
  intros Hlen Hx. split.
  - intros Hy. unfold inverse.
    rewrite wrap32_small by (unfold INT_MIN; lia).
    destruct (Z.of_nat (length (projs p)) <? img_y) eqn:E1;
      [apply Z.ltb_lt in E1; lia|].
    destruct (image_width (settings p) <=? img_x) eqn:E2;
      [apply Z.leb_le in E2; lia|].
    cbn [orb]. unfold vec_at.
    destruct (0 <=? img_y) eqn:E3; [apply Z.leb_le in E3; lia | reflexivity].
  - intros Hy Hfp Hneg. unfold inverse.
    rewrite wrap32_small by (unfold INT_MIN; lia).
    destruct (Z.of_nat (length (projs p)) <? img_y) eqn:E1;
      [apply Z.ltb_lt in E1; lia|].
    destruct (image_width (settings p) <=? img_x) eqn:E2;
      [apply Z.leb_le in E2; lia|].
    cbn [orb]. unfold vec_at.
    destruct (0 <=? img_y) eqn:E3; [|apply Z.leb_gt in E3; lia].
    destruct (lookup_lt_is_Some_2 (projs p) (Z.to_nat img_y)) as [pj ->]; [lia|].
    destruct (lookup_lt_is_Some_2 (sat_footprints p) (Z.to_nat img_y)) as [fp ->]; [lia|].
    unfold rv_load.
    destruct (0 <=? img_x) eqn:E4; [apply Z.leb_le in E4; lia | reflexivity].
Qed.



End More.

(** *** Instances *)

Import Samples ProjectorSamples FloatSamples.

Lemma inverse_returns_1_iff_witness :
  inverse one_scan 0 5 false = OutOfRange <-> (1 < 5 \/ 90 <= 0).
Proof.
  apply (inverse_returns_1_iff one_scan 0 5 false).
  vm_compute. discriminate.
Defined.

Lemma inverse_guard_has_no_lower_bound_witness :
  inverse one_scan 0 (-1) false = LineReadPastEnd
  /\ inverse one_scan (-1) 0 true = TableReadPastEnd.
Proof.
  split.
  - apply (inverse_guard_has_no_lower_bound one_scan 0 (-1) false).
    + vm_compute. discriminate.
    + vm_compute. reflexivity.
    + lia.
  - apply (inverse_guard_has_no_lower_bound one_scan (-1) 0 true).
    + vm_compute. discriminate.
    + vm_compute. reflexivity.
    + vm_compute. split; [discriminate | reflexivity].
    + reflexivity.
    + lia.
Defined.

End ProjectorMore.

(** ** The MWTS-3 reader: what a packet writes, and what an image shows *)

Module MWTS3Content.
Import MWTS3 MWTS3Facts.
Section Content.
Context {ccsds_time : CCSDSTime}.

Ltac int_bounds := unfold INT_MIN, INT_MAX in *; lia.

Lemma payload_at_byte (packet : CCSDSPacket) (k v : Z) :
  payload_at packet k = Some v -> 0 <= v < 256.
Proof.
  unfold payload_at. destruct (0 <=? k); [|discriminate].
  destruct (payload packet !! Z.to_nat k) as [b|]; [|discriminate].
  cbn. intros [= <-]. pose proof (Byte.to_N_bounded b). lia.
Qed.

Lemma high_low_disjoint (hi lo : Z) :
  0 <= lo < 256 -> Z.land (Z.shiftl hi 8) lo = 0.
Proof.
  intros Hlo. apply Z.bits_inj'. intros n Hn.
  rewrite Z.land_spec, Z.bits_0.
  destruct (Z_lt_le_dec n 8) as [Hlt|Hge].
  - now rewrite Z.shiftl_spec_low.
  - destruct (Z.eq_dec lo 0) as [->|Hnz].
    + now rewrite Z.bits_0, andb_false_r.
    + rewrite (Z.bits_above_log2 lo n), andb_false_r; [reflexivity | lia |].
      apply Z.lt_le_trans with 8; [|assumption].
      apply Z.log2_lt_pow2; lia.
Qed.

Lemma sample_value (hi lo : Z) :
  0 <= hi < 256 -> 0 <= lo < 256 ->
  Z.lor (Z.shiftl hi 8) lo mod 2 ^ 16 = hi * 256 + lo.
Proof.
  intros Hhi Hlo.
  rewrite <- Z.add_nocarry_lor by now apply high_low_disjoint.
  rewrite Z.shiftl_mul_pow2 by lia. change (2 ^ 8) with 256.
  apply Z.mod_small. lia.
Qed.

Lemma set_sample_cell (chs chs' : list (list Z)) (c idx v : Z) (c' k' : nat) :
  set_sample chs c idx v = Some chs' ->
  cell chs' c' k'
  = if decide (c' = Z.to_nat c /\ k' = Z.to_nat idx)
    then Some (v mod 2 ^ 16) else cell chs c' k'.
Proof.
  unfold set_sample. destruct (0 <=? c); [|discriminate].
  destruct (chs !! Z.to_nat c) as [ch|] eqn:Hch; [|discriminate].
  destruct ((0 <=? idx) && (idx <? Z.of_nat (length ch))) eqn:E; [|discriminate].
  intros [= <-]. apply andb_true_iff in E as [E1 E2].
  apply Z.leb_le in E1. apply Z.ltb_lt in E2.
  apply lookup_lt_Some in Hch as Hlt. unfold cell.
  destruct (decide (c' = Z.to_nat c)) as [->|Hc].
  - rewrite list_lookup_insert_eq by assumption. cbn [mbind option_bind].
    rewrite Hch. cbn [mbind option_bind].
    destruct (decide (k' = Z.to_nat idx)) as [->|Hk].
    + rewrite list_lookup_insert_eq by lia.
      destruct (decide _) as [_|Hn]; [reflexivity | exfalso; apply Hn; now split].
    + rewrite list_lookup_insert_ne by (intros He; apply Hk; now symmetry).
      destruct (decide _) as [[_ He]|_]; [contradiction | reflexivity].
  - rewrite list_lookup_insert_ne by (intros He; apply Hc; now symmetry).
    destruct (decide _) as [[He _]|_]; [contradiction | reflexivity].
Qed.

(** One statement of the inner loops: it has a result, keeps the sizes,
    and changes the one sample it names to the 16-bit value of the two
    payload bytes. *)
Lemma copy_sample_cell (packet : CCSDSPacket) (lines pos first i c : Z)
    (n : nat) (chs : list (list Z)) :
  shape n chs ->
  0 <= lines -> 0 <= first -> 0 <= i -> 0 <= c < 18 -> 0 <= pos ->
  pos + (18 * i + c) * 2 + 1 < Z.of_nat (length (payload packet)) ->
  lines * 98 + first + i < Z.of_nat n ->
  Z.of_nat n <= INT_MAX ->
  exists chs',
    copy_sample packet lines pos first i chs c = Some chs'
    /\ shape n chs'
    /\ forall c' k' : nat,
         cell chs' c' k'
         = if decide (c' = Z.to_nat c /\ k' = Z.to_nat (lines * 98 + first + i))
           then be16 packet (pos + (18 * i + c) * 2) else cell chs c' k'.
Proof.
  intros Hsh Hl Hf Hi Hc Hpos Hpay Hidx Hmax.
  destruct (payload_at_ok packet (pos + (18 * i + c) * 2 + 0)) as [hi Hhi]; [lia|].
  destruct (payload_at_ok packet (pos + (18 * i + c) * 2 + 1)) as [lo Hlo]; [lia|].
  destruct (set_sample_shape n chs c (lines * 98 + first + i)
              (Z.lor (Z.shiftl hi 8) lo) Hsh Hc) as (chs' & Hset & Hsh'); [lia|].
  exists chs'. split; [|split; [exact Hsh'|]].
  - unfold copy_sample. rewrite Hhi, Hlo. cbn [mbind option_bind].
    rewrite int_mul_ok by int_bounds. cbn [mbind option_bind].
    rewrite int_add_ok by int_bounds. cbn [mbind option_bind].
    rewrite int_add_ok by int_bounds. cbn [mbind option_bind].
    exact Hset.
  - intros c' k'. rewrite (set_sample_cell _ _ _ _ _ _ _ Hset).
    unfold be16. rewrite Hhi, Hlo. cbn [mbind option_bind].
    rewrite sample_value by (eapply payload_at_byte; eassumption).
    reflexivity.
Qed.

(** A loop whose body takes [P k] to [P (k + 1)] takes [P 0] to [P n]. *)
Lemma for_loop_steps {S : Type} (P : nat -> S -> Prop) (n : nat)
    (body : S -> Z -> option S) (s : S) :
  P 0%nat s ->
  (forall (k : nat) (s : S), (k < n)%nat -> P k s ->
     exists s', body s (Z.of_nat k) = Some s' /\ P (Datatypes.S k) s') ->
  exists s', for_loop n body s = Some s' /\ P n s'.
Proof.
  intros Hs Hbody. induction n as [|n IH].
  - exists s. split; [reflexivity | assumption].
  - destruct IH as (s1 & H1 & HP1).
    { intros k s0 Hk HP. apply Hbody; [lia | assumption]. }
    rewrite for_loop_S, H1. cbn [mbind option_bind].
    apply Hbody; [lia | assumption].
Qed.

(** The two loops of one marker: every channel gets, at the [count]
    samples from [lines * 98 + first] on, the 16-bit values of the
    payload, sample after sample and channel after channel; nothing else
    changes. *)
Lemma copy_block_cells (packet : CCSDSPacket) (lines pos count first : Z)
    (n : nat) (chs : list (list Z)) :
  shape n chs ->
  0 <= lines -> 0 <= first -> 0 <= count -> 0 <= pos ->
  pos + (18 * (count - 1) + 17) * 2 + 1 < Z.of_nat (length (payload packet)) ->
  lines * 98 + first + count <= Z.of_nat n ->
  Z.of_nat n <= INT_MAX ->
  exists chs',
    copy_block packet lines pos count first chs = Some chs'
    /\ shape n chs'
    /\ forall c k : nat,
         cell chs' c k
         = if decide ((c < 18)%nat
                      /\ (Z.to_nat (lines * 98 + first) <= k
                          < Z.to_nat (lines * 98 + first) + Z.to_nat count)%nat)
           then be16 packet
                  (pos + (18 * Z.of_nat (k - Z.to_nat (lines * 98 + first))
                          + Z.of_nat c) * 2)
           else cell chs c k.
Proof.
  intros Hsh Hl Hf Hcount Hpos Hpay Hidx Hmax.
  set (b := Z.to_nat (lines * 98 + first)).
  unfold copy_block.
  pose (P := fun (i0 : nat) (cur : list (list Z)) =>
               shape n cur
               /\ forall c k : nat,
                    cell cur c k
                    = if decide ((c < 18)%nat /\ (b <= k < b + i0)%nat)
                      then be16 packet
                             (pos + (18 * Z.of_nat (k - b) + Z.of_nat c) * 2)
                      else cell chs c k).
  destruct (for_loop_steps P (Z.to_nat count)
              (fun chs i => for_loop 18 (copy_sample packet lines pos first i) chs) chs)
    as (chs' & Hrun & Hshf & Hfin).
  { split; [assumption|]. intros c k.
    destruct (decide _) as [[_ Hk]|_]; [lia | reflexivity]. }
  { intros i cur Hi [Hshc Hcur].
    pose (Q := fun (c0 : nat) (cur' : list (list Z)) =>
                 shape n cur'
                 /\ forall c k : nat,
                      cell cur' c k
                      = if decide ((c < c0)%nat /\ k = (b + i)%nat)
                        then be16 packet
                               (pos + (18 * Z.of_nat i + Z.of_nat c) * 2)
                        else cell cur c k).
    destruct (for_loop_steps Q 18 (copy_sample packet lines pos first (Z.of_nat i)) cur)
      as (cur' & Hloop & Hshc' & Hcur').
    { split; [assumption|]. intros c k.
      destruct (decide _) as [[Hc _]|_]; [lia | reflexivity]. }
    { intros c cur1 Hc [Hsh1 Hcur1].
      destruct (copy_sample_cell packet lines pos first (Z.of_nat i) (Z.of_nat c) n cur1)
        as (cur2 & Hcopy & Hsh2 & Hcur2); try assumption; try lia.
      exists cur2. split; [exact Hcopy|]. split; [exact Hsh2|].
      intros c' k'. rewrite Hcur2, Hcur1.
      replace (Z.to_nat (lines * 98 + first + Z.of_nat i)) with (b + i)%nat
        by (unfold b; lia).
      rewrite Nat2Z.id.
      destruct (decide (c' = c /\ k' = (b + i)%nat)) as [[-> ->]|Hn1].
      - destruct (decide _) as [_|Hn]; [reflexivity | exfalso; apply Hn; lia].
      - destruct (decide ((c' < c)%nat /\ k' = (b + i)%nat)) as [[H1 H2]|Hn2].
        + destruct (decide _) as [_|Hn]; [reflexivity | exfalso; apply Hn; lia].
        + destruct (decide _) as [[H1 H2]|_]; [|reflexivity].
          exfalso. destruct (decide (c' = c)) as [->|]; [apply Hn1 | apply Hn2]; lia. }
    exists cur'. split; [exact Hloop|]. split; [exact Hshc'|].
    intros c k. rewrite Hcur', Hcur.
    destruct (decide ((c < 18)%nat /\ k = (b + i)%nat)) as [[H1 ->]|Hn1].
    - replace (b + i - b)%nat with i by lia.
      destruct (decide _) as [_|Hn]; [reflexivity | exfalso; apply Hn; lia].
    - destruct (decide ((c < 18)%nat /\ (b <= k < b + i)%nat)) as [[H1 H2]|Hn2].
      + destruct (decide _) as [_|Hn]; [reflexivity | exfalso; apply Hn; lia].
      + destruct (decide _) as [[H1 H2]|_]; [|reflexivity].
        exfalso. destruct (decide (k = (b + i)%nat)); [apply Hn1 | apply Hn2]; lia. }
  exists chs'. split; [exact Hrun|]. split; [exact Hshf|]. exact Hfin.
Qed.

Lemma resize_channels_same (n : nat) (chs : list (list Z)) :
  shape n chs -> map (fun ch => resize n 0 ch) chs = chs.
Proof.
  intros [_ Hall]. induction Hall as [|ch chs Hch _ IH]; [reflexivity|].
  cbn [map]. rewrite IH. f_equal. now apply resize_all_alt.
Qed.

Lemma cell_resized (n n' : nat) (chs : list (list Z)) (c k : nat) :
  shape n chs -> (n <= n')%nat -> (c < 18)%nat ->
  cell (map (fun ch => resize n' 0 ch) chs) c k
  = if decide (k < n)%nat then cell chs c k
    else if decide (k < n')%nat then Some 0 else None.
Proof.
  intros [H18 Hall] Hn Hc. unfold cell. rewrite list_lookup_fmap.
  destruct (lookup_lt_is_Some_2 chs c) as [ch Hch]; [lia|].
  rewrite Hch. cbn [fmap option_fmap option_map mbind option_bind].
  assert (Hlen : length ch = n).
  { eapply Forall_lookup_1 in Hall; [exact Hall | exact Hch]. }
  destruct (decide (k < n)%nat) as [Hk|Hk].
  - apply lookup_resize; lia.
  - destruct (decide (k < n')%nat) as [Hk'|Hk'].
    + apply lookup_resize_new; lia.
    + apply lookup_ge_None. rewrite length_resize. lia.
Qed.

Lemma work_unfold (r : MWTS3Reader) (packet : CCSDSPacket) (m : Z) :
  1018 <= Z.of_nat (length (payload packet)) ->
  marker_of packet = Some m ->
  work r packet
  = (r0 ← (if m =? 1 then
             chs ← copy_block packet (lines r) (224 + 144 * 2) 14 0 (channels r);
             lines' ← int_add (lines r) 1;
             Some {| channels := chs; lines := lines';
                     timestamps := timestamps r ++ [line_time packet] |}
           else if m =? 2 then
             chs ← copy_block packet (lines r) 8 28 14 (channels r);
             Some {| channels := chs; lines := lines r; timestamps := timestamps r |}
           else if m =? 3 then
             chs ← copy_block packet (lines r) 8 28 42 (channels r);
             Some {| channels := chs; lines := lines r; timestamps := timestamps r |}
           else if m =? 4 then
             chs ← copy_block packet (lines r) 8 28 70 (channels r);
             Some {| channels := chs; lines := lines r; timestamps := timestamps r |}
           else Some r);
     n ← int_add (lines r0) 1;
     n0 ← int_mul n 98;
     Some {| channels := map (fun ch => resize (Z.to_nat n0) 0 ch) (channels r0);
             lines := lines r0;
             timestamps := timestamps r0 |}).
Proof.
  intros Hlen Hm. unfold work.
  destruct (Z.of_nat (length (payload packet)) <? 1018) eqn:E;
    [apply Z.ltb_lt in E; lia|].
  rewrite Hm. reflexivity.
Qed.

(** A packet whose marker is 2, 3 or 4. *)
Lemma work_block (r : MWTS3Reader) (packet : CCSDSPacket) (m first : Z) :
  reader_inv r ->
  1018 <= Z.of_nat (length (payload packet)) ->
  (lines r + 1) * 98 <= INT_MAX ->
  marker_of packet = Some m ->
  (m = 2 /\ first = 14) \/ (m = 3 /\ first = 42) \/ (m = 4 /\ first = 70) ->
  exists chs',
    work r packet
    = Some {| channels := chs'; lines := lines r; timestamps := timestamps r |}
    /\ shape (Z.to_nat ((lines r + 1) * 98)) chs'
    /\ forall c k : nat,
         cell chs' c k
         = if decide ((c < 18)%nat
                      /\ (Z.to_nat (lines r * 98 + first) <= k
                          < Z.to_nat (lines r * 98 + first) + 28)%nat)
           then be16 packet
                  (8 + (18 * Z.of_nat (k - Z.to_nat (lines r * 98 + first))
                        + Z.of_nat c) * 2)
           else cell (channels r) c k.
Proof.
  intros Hinv Hlen Hmax Hm Hcase.
  pose proof (shape_of_inv r Hinv) as Hsh.
  assert (Hl : 0 <= lines r) by (destruct Hinv as (_ & _ & ->); lia).
  assert (Hfirst : 0 <= first <= 70) by lia.
  destruct (copy_block_cells packet (lines r) 8 28 first
              (Z.to_nat ((lines r + 1) * 98)) (channels r))
    as (chs' & Hcopy & Hsh' & Hcells); try assumption; try int_bounds.
  exists chs'. split; [|split; [exact Hsh'|exact Hcells]].
  rewrite (work_unfold r packet m Hlen Hm).
  assert (Hrest : forall chs0,
             shape (Z.to_nat ((lines r + 1) * 98)) chs0 ->
             (r0 ← Some {| channels := chs0; lines := lines r;
                           timestamps := timestamps r |};
              n ← int_add (lines r0) 1;
              n0 ← int_mul n 98;
              Some {| channels := map (fun ch => resize (Z.to_nat n0) 0 ch) (channels r0);
                      lines := lines r0; timestamps := timestamps r0 |})
             = Some {| channels := chs0; lines := lines r;
                       timestamps := timestamps r |}).
  { intros chs0 Hsh0. cbn [mbind option_bind lines channels timestamps].
    rewrite int_add_ok by int_bounds. cbn [mbind option_bind].
    rewrite int_mul_ok by int_bounds. cbn [mbind option_bind].
    now rewrite resize_channels_same. }
  destruct Hcase as [[-> ->]|[[-> ->]|[-> ->]]]; cbn [Z.eqb Pos.eqb];
    rewrite Hcopy; cbn [mbind option_bind]; now apply Hrest.
Qed.

(** A packet whose marker is 1. *)
Lemma work_line_start (r : MWTS3Reader) (packet : CCSDSPacket) :
  reader_inv r ->
  1018 <= Z.of_nat (length (payload packet)) ->
  (lines r + 2) * 98 <= INT_MAX ->
  marker_of packet = Some 1 ->
  exists chs',
    work r packet
    = Some {| channels :=
                map (fun ch => resize (Z.to_nat ((lines r + 2) * 98)) 0 ch) chs';
              lines := lines r + 1;
              timestamps := timestamps r ++ [line_time packet] |}
    /\ shape (Z.to_nat ((lines r + 1) * 98)) chs'
    /\ forall c k : nat,
         cell chs' c k
         = if decide ((c < 18)%nat
                      /\ (Z.to_nat (lines r * 98) <= k < Z.to_nat (lines r * 98) + 14)%nat)
           then be16 packet
                  (224 + 144 * 2
                   + (18 * Z.of_nat (k - Z.to_nat (lines r * 98)) + Z.of_nat c) * 2)
           else cell (channels r) c k.
Proof.
  intros Hinv Hlen Hmax Hm.
  pose proof (shape_of_inv r Hinv) as Hsh.
  assert (Hl : 0 <= lines r) by (destruct Hinv as (_ & _ & ->); lia).
  destruct (copy_block_cells packet (lines r) (224 + 144 * 2) 14 0
              (Z.to_nat ((lines r + 1) * 98)) (channels r))
    as (chs' & Hcopy & Hsh' & Hcells); try assumption; try int_bounds.
  exists chs'. split; [|split; [exact Hsh'|]].
  - rewrite (work_unfold r packet 1 Hlen Hm). cbn [Z.eqb Pos.eqb].
    rewrite Hcopy. cbn [mbind option_bind].
    rewrite int_add_ok by int_bounds.
    cbn [mbind option_bind lines channels timestamps].
    rewrite int_add_ok by int_bounds. cbn [mbind option_bind].
    rewrite int_mul_ok by int_bounds. cbn [mbind option_bind].
    do 3 f_equal. f_equal. lia.
  - intros c k. rewrite Hcells.
    replace (lines r * 98 + 0) with (lines r * 98) by lia. reflexivity.
Qed.

(** A packet with another marker. *)
Lemma work_other (r : MWTS3Reader) (packet : CCSDSPacket) (m : Z) :
  reader_inv r ->
  1018 <= Z.of_nat (length (payload packet)) ->
  (lines r + 1) * 98 <= INT_MAX ->
  marker_of packet = Some m ->
  m <> 1 -> m <> 2 -> m <> 3 -> m <> 4 ->
  work r packet = Some r.
Proof.
  intros Hinv Hlen Hmax Hm H1 H2 H3 H4.
  pose proof (shape_of_inv r Hinv) as Hsh.
  assert (Hl : 0 <= lines r) by (destruct Hinv as (_ & _ & ->); lia).
  rewrite (work_unfold r packet m Hlen Hm).
  apply Z.eqb_neq in H1, H2, H3, H4. rewrite H1, H2, H3, H4.
  cbn [mbind option_bind].
  rewrite int_add_ok by int_bounds. cbn [mbind option_bind].
  rewrite int_mul_ok by int_bounds. cbn [mbind option_bind].
  rewrite resize_channels_same by assumption. now destruct r.
Qed.

Lemma cell_of_channel (chs : list (list Z)) (c k : nat) (ch : list Z) :
  chs !! c = Some ch -> cell chs c k = ch !! k.
Proof. intros Hch. unfold cell. now rewrite Hch. Qed.

Lemma marker_cases (packet : CCSDSPacket) :
  1018 <= Z.of_nat (length (payload packet)) ->
  starts_line packet = false ->
  exists m, marker_of packet = Some m /\ m <> 1.
Proof.
  intros Hlen Hstart. destruct (marker_of_ok packet Hlen) as [m Hm].
  exists m. split; [exact Hm|]. intros ->.
  unfold starts_line in Hstart.
  destruct (Z.of_nat (length (payload packet)) <? 1018) eqn:E;
    [apply Z.ltb_lt in E; lia|].
  rewrite bool_decide_eq_true_2 in Hstart by assumption. discriminate.
Qed.

(** X11.  A packet with at least 1018 payload bytes and marker 2, 3 or 4
    writes 28 pixels of the line in progress (the line of index
    [lines]), from pixel 14, 42 or 70 on: pixel [first + i] of channel
    [c] becomes the 16-bit big-endian value of the payload bytes at
    [8 + (18 * i + c) * 2].  Every other sample, [lines] and the time
    stamps are left as they are. *)
Theorem work_fills_pixels (r : MWTS3Reader) (packet : CCSDSPacket) (m first : Z) :
  reader_inv r ->
  1018 <= Z.of_nat (length (payload packet)) ->
  (lines r + 1) * 98 <= INT_MAX ->
  marker_of packet = Some m ->
  (m = 2 /\ first = 14) \/ (m = 3 /\ first = 42) \/ (m = 4 /\ first = 70) ->
  exists r',
    work r packet = Some r'
    /\ lines r' = lines r
    /\ timestamps r' = timestamps r
    /\ forall c k : nat,
         cell (channels r') c k
         = if decide ((c < 18)%nat
                      /\ (Z.to_nat (lines r * 98 + first) <= k
                          < Z.to_nat (lines r * 98 + first) + 28)%nat)
           then be16 packet
                  (8 + (18 * Z.of_nat (k - Z.to_nat (lines r * 98 + first))
                        + Z.of_nat c) * 2)
           else cell (channels r) c k.
Proof.
  intros Hinv Hlen Hmax Hm Hcase.
  destruct (work_block r packet m first Hinv Hlen Hmax Hm Hcase)
    as (chs' & Hwork & _ & Hcells).
  eexists. split; [exact Hwork|]. cbn [lines timestamps channels].
  repeat split. exact Hcells.
Qed.

(** X12.  A packet with at least 1018 payload bytes and marker 1 writes
    the pixels 0 to 13 of the line of index [lines] (pixel [i] of
    channel [c] becomes the big-endian value of the payload bytes at
    [224 + 144 * 2 + (18 * i + c) * 2]), records the parsed time plus 12
    hours as the time stamp of the line, increments [lines] and adds a
    line of 98 zero samples at the end of every channel; the other
    samples are left as they are. *)
Theorem work_starts_line (r : MWTS3Reader) (packet : CCSDSPacket) :
  reader_inv r ->
  1018 <= Z.of_nat (length (payload packet)) ->
  (lines r + 2) * 98 <= INT_MAX ->
  marker_of packet = Some 1 ->
  exists r',
    work r packet = Some r'
    /\ lines r' = lines r + 1
    /\ timestamps r'
       = timestamps r
         ++ [b64_add (parseCCSDSTimeFullRaw (drop 2 (payload packet)) 10957 10000 10000)
                     (b64_of_int (12 * 3600))]
    /\ forall c k : nat,
         (c < 18)%nat ->
         cell (channels r') c k
         = if decide (Z.to_nat (lines r * 98) <= k < Z.to_nat (lines r * 98) + 14)%nat
           then be16 packet
                  (224 + 144 * 2
                   + (18 * Z.of_nat (k - Z.to_nat (lines r * 98)) + Z.of_nat c) * 2)
           else if decide (k < Z.to_nat ((lines r + 1) * 98))%nat
                then cell (channels r) c k
                else if decide (k < Z.to_nat ((lines r + 2) * 98))%nat
                     then Some 0 else None.
Proof.
  intros Hinv Hlen Hmax Hm.
  assert (Hl : 0 <= lines r) by (destruct Hinv as (_ & _ & ->); lia).
  destruct (work_line_start r packet Hinv Hlen Hmax Hm)
    as (chs' & Hwork & Hsh' & Hcells).
  eexists. split; [exact Hwork|]. cbn [lines timestamps channels].
  split; [reflexivity|]. split; [reflexivity|].
  intros c k Hc.
  rewrite (cell_resized (Z.to_nat ((lines r + 1) * 98))) by (assumption || lia).
  rewrite Hcells.
  destruct (decide (Z.to_nat (lines r * 98) <= k < Z.to_nat (lines r * 98) + 14)%nat)
    as [Hk|Hk].
  - destruct (decide (k < Z.to_nat ((lines r + 1) * 98))%nat) as [_|Hn]; [|lia].
    destruct (decide _) as [_|Hn]; [reflexivity | exfalso; apply Hn; now split].
  - destruct (decide (k < Z.to_nat ((lines r + 1) * 98))%nat) as [_|Hn];
      [|reflexivity].
    destruct (decide _) as [[_ Hk']|_]; [contradiction | reflexivity].
Qed.

(** X13.  A packet with at least 1018 payload bytes whose marker is none
    of 1, 2, 3, 4 leaves the reader as it is. *)
Theorem work_ignores_other_markers (r : MWTS3Reader) (packet : CCSDSPacket) (m : Z) :
  reader_inv r ->
  1018 <= Z.of_nat (length (payload packet)) ->
  (lines r + 1) * 98 <= INT_MAX ->
  marker_of packet = Some m ->
  m <> 1 -> m <> 2 -> m <> 3 -> m <> 4 ->
  work r packet = Some r.
Proof. exact (work_other r packet m). Qed.

Lemma getChannel_some (r : MWTS3Reader) (channel : Z) :
  reader_inv r -> 0 <= channel < 18 ->
  exists ch,
    channels r !! Z.to_nat channel = Some ch
    /\ Z.of_nat (length ch) = (lines r + 1) * 98
    /\ getChannel r channel
       = Some {| img_buffer := ch; img_width := 98;
                 img_height := lines r; img_channels := 1 |}.
Proof.
  intros (H18 & Hall & _) Hc.
  destruct (lookup_lt_is_Some_2 (channels r) (Z.to_nat channel)) as [ch Hch]; [lia|].
  exists ch. split; [exact Hch|]. split.
  - eapply Forall_lookup_1 in Hall; [exact Hall | exact Hch].
  - unfold getChannel. destruct (0 <=? channel) eqn:E; [|apply Z.leb_gt in E; lia].
    now rewrite Hch.
Qed.

(** X14.  For each of the 18 channels [getChannel] describes an image
    of 98 by [lines] samples over the buffer of the channel, which holds
    98 samples more: the image is read inside the buffer and leaves out
    its last line, the line in progress. *)
Theorem getChannel_inside_buffer (r : MWTS3Reader) (channel : Z) :
  reader_inv r -> 0 <= channel < 18 ->
  exists a,
    getChannel r channel = Some a
    /\ img_width a = 98 /\ img_height a = lines r /\ img_channels a = 1
    /\ Z.of_nat (length (img_buffer a))
       = img_width a * img_height a * img_channels a + 98
    /\ Z.of_nat (length (image_samples a)) = 98 * lines r.
Proof.
  intros Hinv Hc.
  assert (Hl : 0 <= lines r) by (destruct Hinv as (_ & _ & ->); lia).
  destruct (getChannel_some r channel Hinv Hc) as (ch & _ & Hlen & Hget).
  eexists. split; [exact Hget|]. cbn [img_width img_height img_channels img_buffer].
  repeat split; [lia|].
  unfold image_samples. cbn [img_width img_height img_channels img_buffer].
  rewrite length_take. lia.
Qed.

Lemma getChannel_outside (r r' : MWTS3Reader) (channel : Z) :
  length (channels r) = 18%nat -> length (channels r') = 18%nat ->
  ~ 0 <= channel < 18 ->
  getChannel r' channel = None /\ getChannel r channel = None.
Proof.
  intros H18 H18' Hc. unfold getChannel.
  destruct (0 <=? channel) eqn:E; [|split; reflexivity].
  apply Z.leb_le in E.
  rewrite (lookup_ge_None_2 (channels r)), (lookup_ge_None_2 (channels r')) by lia.
  split; reflexivity.
Qed.

(** X15.  A packet that does not start a line (fewer than 1018 payload
    bytes, or a marker other than 1) changes no image: for every channel
    [getChannel] gives the same samples after the packet as before.  The
    pixels of a marker 2, 3 or 4 packet only show once the next line has
    started. *)
Theorem images_kept_between_lines (r : MWTS3Reader) (packet : CCSDSPacket) :
  reader_inv r ->
  (lines r + 1) * 98 <= INT_MAX ->
  starts_line packet = false ->
  exists r',
    work r packet = Some r'
    /\ forall channel : Z,
         image_samples <$> getChannel r' channel
         = image_samples <$> getChannel r channel.
Proof.
  intros Hinv Hmax Hstart.
  assert (Hl : 0 <= lines r) by (destruct Hinv as (_ & _ & ->); lia).
  destruct (Z_lt_le_dec (Z.of_nat (length (payload packet))) 1018) as [Hshort|Hlen].
  { exists r. split; [now apply work_short | reflexivity]. }
  destruct (marker_cases packet Hlen Hstart) as (m & Hm & Hm1).
  destruct (decide (m = 2 \/ m = 3 \/ m = 4)) as [Hblock|Hother].
  - assert (Hcase : exists first,
               0 <= first
               /\ ((m = 2 /\ first = 14) \/ (m = 3 /\ first = 42)
                   \/ (m = 4 /\ first = 70))).
    { destruct Hblock as [-> | [-> | ->]];
        [exists 14 | exists 42 | exists 70]; split; lia || tauto. }
    destruct Hcase as (first & Hfirst & Hcase).
    destruct (work_block r packet m first Hinv Hlen Hmax Hm Hcase)
      as (chs' & Hwork & [H18' Hall'] & Hcells).
    eexists. split; [exact Hwork|]. intros channel.
    destruct (decide (0 <= channel < 18)) as [Hc|Hc].
    + destruct (getChannel_some r channel Hinv Hc) as (ch & Hch & Hlench & ->).
      unfold getChannel. cbn [channels lines].
      destruct (0 <=? channel) eqn:E; [|apply Z.leb_gt in E; lia].
      destruct (lookup_lt_is_Some_2 chs' (Z.to_nat channel)) as [ch' Hch']; [lia|].
      rewrite Hch'. cbn [mbind option_bind fmap option_fmap option_map].
      f_equal. unfold image_samples. cbn [img_width img_height img_channels img_buffer].
      apply list_eq. intros k. rewrite !lookup_take.
      destruct (decide (k < Z.to_nat (98 * lines r * 1))%nat) as [Hk|Hk]; [|reflexivity].
      rewrite <- (cell_of_channel chs' (Z.to_nat channel) k ch' Hch'), Hcells.
      destruct (decide _) as [[_ Hwin]|_]; [lia|].
      now apply cell_of_channel.
    + destruct Hinv as (H18 & _).
      destruct (getChannel_outside r
                  {| channels := chs'; lines := lines r; timestamps := timestamps r |}
                  channel H18 H18' Hc) as [-> ->].
      reflexivity.
  - exists r. split; [|reflexivity].
    apply (work_other r packet m); try assumption; intros ->; apply Hother; tauto.
Qed.

(** X16.  A packet that starts a line adds exactly one line of 98
    samples to the image of every channel, after the lines the image
    had.  In the added line the pixels 0 to 13 are those of the packet
    and the pixels 14 to 97 are what the buffer held there, that is what
    the marker 2, 3 and 4 packets before it wrote. *)
Theorem line_start_adds_a_line (r : MWTS3Reader) (packet : CCSDSPacket) (channel : Z) :
  reader_inv r ->
  1018 <= Z.of_nat (length (payload packet)) ->
  (lines r + 2) * 98 <= INT_MAX ->
  marker_of packet = Some 1 ->
  0 <= channel < 18 ->
  exists r' a a' row,
    work r packet = Some r'
    /\ getChannel r channel = Some a
    /\ getChannel r' channel = Some a'
    /\ image_samples a' = image_samples a ++ row
    /\ length row = 98%nat
    /\ (forall i : nat, (i < 14)%nat ->
          row !! i = be16 packet (224 + 144 * 2 + (18 * Z.of_nat i + channel) * 2))
    /\ (forall i : nat, (14 <= i < 98)%nat ->
          row !! i = img_buffer a !! (Z.to_nat (lines r * 98) + i)%nat).
Proof.
  intros Hinv Hlen Hmax Hm Hc.
  assert (Hl : 0 <= lines r) by (destruct Hinv as (_ & _ & ->); lia).
  destruct (work_line_start r packet Hinv Hlen Hmax Hm)
    as (chs' & Hwork & [H18' Hall'] & Hcells).
  destruct (getChannel_some r channel Hinv Hc) as (ch & Hch & Hlench & Hget).
  destruct (lookup_lt_is_Some_2 chs' (Z.to_nat channel)) as [ch' Hch']; [lia|].
  assert (Hlench' : length ch' = Z.to_nat ((lines r + 1) * 98)).
  { eapply Forall_lookup_1 in Hall'; [exact Hall' | exact Hch']. }
  set (b := Z.to_nat (lines r * 98)).
  assert (Hcell : forall k : nat,
             ch' !! k
             = if decide (b <= k < b + 14)%nat
               then be16 packet
                      (224 + 144 * 2 + (18 * Z.of_nat (k - b) + channel) * 2)
               else ch !! k).
  { intros k.
    rewrite <- (cell_of_channel chs' (Z.to_nat channel) k ch' Hch'), Hcells.
    fold b. rewrite Z2Nat.id by lia.
    rewrite (cell_of_channel (channels r) (Z.to_nat channel) k ch Hch).
    destruct (decide (b <= k < b + 14)%nat) as [Hk|Hk].
    - destruct (decide _) as [_|Hn]; [reflexivity | exfalso; apply Hn; split; lia].
    - destruct (decide _) as [[_ Hk']|_]; [contradiction | reflexivity]. }
  eexists _, _, _, (drop b ch'). split; [exact Hwork|]. split; [exact Hget|].
  split.
  { unfold getChannel. cbn [channels lines].
    destruct (0 <=? channel) eqn:E; [|apply Z.leb_gt in E; lia].
    rewrite list_lookup_fmap, Hch'. reflexivity. }
  unfold image_samples. cbn [img_width img_height img_channels img_buffer].
  split.
  { replace (Z.to_nat (98 * (lines r + 1) * 1)) with (length ch') by lia.
    rewrite take_resize_le by lia. rewrite resize_all.
    replace (Z.to_nat (98 * lines r * 1)) with b by (unfold b; lia).
    rewrite <- (take_drop b ch') at 1. f_equal.
    apply list_eq. intros k. rewrite !lookup_take.
    destruct (decide (k < b)%nat) as [Hk|Hk]; [|reflexivity].
    rewrite Hcell. destruct (decide _) as [Hwin|_]; [lia | reflexivity]. }
  split.
  { rewrite length_drop, Hlench'. unfold b. lia. }
  split.
  - intros i Hi. rewrite lookup_drop, Hcell.
    destruct (decide _) as [_|Hn]; [|lia].
    replace (b + i - b)%nat with i by lia. reflexivity.
  - intros i Hi. rewrite lookup_drop, Hcell.
    destruct (decide _) as [Hwin|_]; [lia | reflexivity].
Qed.

Lemma starts_line_true (packet : CCSDSPacket) :
  starts_line packet = true ->
  1018 <= Z.of_nat (length (payload packet)) /\ marker_of packet = Some 1.
Proof.
  unfold starts_line. intros H. apply andb_true_iff in H as [H1 H2].
  apply negb_true_iff, Z.ltb_ge in H1. apply bool_decide_eq_true in H2.
  split; assumption.
Qed.

Lemma work_all_cons (r : MWTS3Reader) (packet : CCSDSPacket)
    (packets : list CCSDSPacket) (r1 : MWTS3Reader) :
  work r packet = Some r1 ->
  work_all r (packet :: packets) = work_all r1 packets.
Proof. intros Hw. unfold work_all. cbn [foldl mbind option_bind]. now rewrite Hw. Qed.

Lemma work_all_lines_aux (packets : list CCSDSPacket) :
  forall r : MWTS3Reader,
    reader_inv r ->
    (lines r + Z.of_nat (length (List.filter starts_line packets)) + 2) * 98 <= INT_MAX ->
    exists r',
      work_all r packets = Some r'
      /\ reader_inv r'
      /\ lines r' = lines r + Z.of_nat (length (List.filter starts_line packets))
      /\ timestamps r' = timestamps r ++ map line_time (List.filter starts_line packets).
Proof.
  induction packets as [|packet packets IH]; intros r Hinv Hmax.
  - exists r. cbn. rewrite app_nil_r.
    split; [reflexivity|]. split; [assumption|]. split; [lia | reflexivity].
  - assert (Hl : 0 <= lines r) by (destruct Hinv as (_ & _ & ->); lia).
    cbn [List.filter] in *. destruct (starts_line packet) eqn:Hstart.
    + cbn [length map] in *.
      destruct (starts_line_true packet Hstart) as [Hlen Hm].
      destruct (work_line_start r packet Hinv Hlen ltac:(unfold INT_MAX in *; lia) Hm)
        as (chs' & Hwork & _).
      destruct (work_long r packet Hinv Hlen ltac:(unfold INT_MAX in *; lia))
        as (m & r1 & _ & Hwork1 & Hinv1 & _).
      rewrite Hwork in Hwork1. injection Hwork1 as Hr1.
      destruct (IH r1) as (r' & Hall & Hinv' & Hlines & Hts).
      { exact Hinv1. }
      { rewrite <- Hr1. cbn [lines]. unfold INT_MAX in *. lia. }
      exists r'. rewrite (work_all_cons r packet packets r1) by now rewrite Hwork, Hr1.
      split; [exact Hall|]. split; [exact Hinv'|].
      rewrite Hlines, Hts, <- Hr1. cbn [lines timestamps].
      split; [lia | now rewrite <- app_assoc].
    + destruct (Z_lt_le_dec (Z.of_nat (length (payload packet))) 1018) as [Hshort|Hlen].
      * rewrite (work_all_cons r packet packets r) by now apply work_short.
        now apply IH.
      * destruct (marker_cases packet Hlen Hstart) as (m & Hm & Hm1).
        destruct (work_long r packet Hinv Hlen ltac:(unfold INT_MAX in *; lia))
          as (m' & r1 & Hm' & Hwork1 & Hinv1 & _ & Hsame).
        assert (m' = m) as -> by congruence.
        destruct (Hsame Hm1) as [Hl1 Ht1].
        destruct (IH r1) as (r' & Hall & Hinv' & Hlines & Hts).
        { exact Hinv1. }
        { rewrite Hl1. assumption. }
        exists r'. rewrite (work_all_cons r packet packets r1) by assumption.
        split; [exact Hall|]. split; [exact Hinv'|].
        rewrite Hlines, Hts, Hl1, Ht1. split; reflexivity.
Qed.

(** X17.  Handed a sequence of packets, the reader counts the packets
    that start a line (at least 1018 payload bytes, marker 1) and keeps
    their time stamps in the order of the packets: [lines] grows by
    their number, the time stamps by their parsed times plus 12 hours,
    and the invariant holds at the end. *)
Theorem work_all_lines (r : MWTS3Reader) (packets : list CCSDSPacket) :
  reader_inv r ->
  (lines r + Z.of_nat (length (List.filter starts_line packets)) + 2) * 98 <= INT_MAX ->
  exists r',
    work_all r packets = Some r'
    /\ reader_inv r'
    /\ lines r' = lines r + Z.of_nat (length (List.filter starts_line packets))
    /\ timestamps r' = timestamps r ++ map line_time (List.filter starts_line packets).
Proof. exact (work_all_lines_aux packets r). Qed.
End Content.

(** *** Instances *)

Import MWTS3Samples.

Lemma work_fills_pixels_witness :
  exists r',
    work (ccsds_time := zero_time) MWTS3Reader_new pixels_packet = Some r'
    /\ lines r' = 0
    /\ cell (channels r') 3 20 = be16 pixels_packet (8 + (18 * 6 + 3) * 2).
Proof.
  destruct (work_fills_pixels (ccsds_time := zero_time) MWTS3Reader_new pixels_packet 2 14)
    as (r' & Hw & Hl & _ & Hcells).
  - exact reader_inv_new.
  - vm_compute. discriminate.
  - vm_compute. discriminate.
  - reflexivity.
  - left. split; reflexivity.
  - exists r'. split; [exact Hw|]. split; [exact Hl|]. exact (Hcells 3%nat 20%nat).
Defined.

Lemma work_starts_line_witness :
  exists r',
    work (ccsds_time := zero_time) MWTS3Reader_new first_packet = Some r'
    /\ lines r' = 1
    /\ cell (channels r') 0 100 = Some 0.
Proof.
  destruct (work_starts_line (ccsds_time := zero_time) MWTS3Reader_new first_packet)
    as (r' & Hw & Hl & _ & Hcells).
  - exact reader_inv_new.
  - vm_compute. discriminate.
  - vm_compute. discriminate.
  - reflexivity.
  - exists r'. split; [exact Hw|]. split; [exact Hl|].
    exact (Hcells 0%nat 100%nat ltac:(lia)).
Defined.

Lemma work_ignores_other_markers_witness :
  work (ccsds_time := zero_time) MWTS3Reader_new idle_packet = Some MWTS3Reader_new.
Proof.
  apply (work_ignores_other_markers (ccsds_time := zero_time)
           MWTS3Reader_new idle_packet 0).
  - exact reader_inv_new.
  - vm_compute. discriminate.
  - vm_compute. discriminate.
  - reflexivity.
  - discriminate.
  - discriminate.
  - discriminate.
  - discriminate.
Defined.

Lemma getChannel_inside_buffer_witness :
  exists a,
    getChannel MWTS3Reader_new 17 = Some a
    /\ Z.of_nat (length (img_buffer a)) = 98
    /\ Z.of_nat (length (image_samples a)) = 0.
Proof.
  destruct (getChannel_inside_buffer MWTS3Reader_new 17)
    as (a & Hget & Hw & Hh & Hc & Hbuf & Hlen).
  - exact reader_inv_new.
  - lia.
  - exists a. split; [exact Hget|]. rewrite Hbuf, Hw, Hh, Hc, Hlen. split; reflexivity.
Defined.

Lemma images_kept_between_lines_witness :
  exists r',
    work (ccsds_time := zero_time) MWTS3Reader_new pixels_packet = Some r'
    /\ image_samples <$> getChannel r' 0
       = image_samples <$> getChannel MWTS3Reader_new 0.
Proof.
  destruct (images_kept_between_lines (ccsds_time := zero_time)
              MWTS3Reader_new pixels_packet)
    as (r' & Hw & Himg).
  - exact reader_inv_new.
  - vm_compute. discriminate.
  - reflexivity.
  - exists r'. split; [exact Hw | exact (Himg 0)].
Defined.

Lemma line_start_adds_a_line_witness :
  exists r' a a' row,
    work (ccsds_time := zero_time) MWTS3Reader_new first_packet = Some r'
    /\ getChannel MWTS3Reader_new 0 = Some a
    /\ getChannel r' 0 = Some a'
    /\ image_samples a' = image_samples a ++ row
    /\ length row = 98%nat.
Proof.
  destruct (line_start_adds_a_line (ccsds_time := zero_time)
              MWTS3Reader_new first_packet 0)
    as (r' & a & a' & row & Hw & Ha & Ha' & Himg & Hrow & _).
  - exact reader_inv_new.
  - vm_compute. discriminate.
  - vm_compute. discriminate.
  - reflexivity.
  - lia.
  - exists r', a, a', row. repeat split; assumption.
Defined.

Lemma work_all_lines_witness :
  exists r',
    work_all (ccsds_time := zero_time) MWTS3Reader_new
      [first_packet; pixels_packet; short_packet; first_packet] = Some r'
    /\ reader_inv r'
    /\ lines r' = 2.
Proof.
  destruct (work_all_lines (ccsds_time := zero_time) MWTS3Reader_new
              [first_packet; pixels_packet; short_packet; first_packet])
    as (r' & Hw & Hinv & Hl & _).
  - exact reader_inv_new.
  - vm_compute. discriminate.
  - exists r'. split; [exact Hw|]. split; [exact Hinv | exact Hl].
Defined.
End MWTS3Content.
